(** * Construction-site monitoring: trackers and stream sources

    A shallow embedding of [app/utils/detection.py] (the safety-gear and
    proximity trackers) and [app/utils/camera.py] (the stream source and its
    registry), with the properties of the specification stated over it.

    Conventions.
    - [time.time()] and detection confidences are Python floats; they are
      embedded as rationals ([Q]), so [round(x, 1)] is round-half-even on
      tenths.
    - Python dictionaries are [gmap]s; a [defaultdict(dict)] read inserts the
      empty dictionary, which the embedding writes out.
    - What the vision primitives answer (the people found by the HOG
      detector, the pixel counts of the colour analysis, the machinery boxes
      found from contours) and what the clocks read are observed by a pass;
      they are fields of the observation record the pass receives.
    - The boxes of the HOG detector are numpy int32: the distance
      arithmetic of the proximity tracker is int32 arithmetic and wraps
      around ([Proximity.int32]).
    - A call of [cv2.imwrite] returns [True], returns [False] or raises
      ([imwrite_outcome]); the trackers look at the last only.
    - numpy arrays and camera objects are heap objects: a store maps
      locations to their contents, so that aliasing and copies are visible. *)

From Stdlib Require Import ZArith QArith Qround Lqa List Sorted Ascii.
From stdpp Require Import gmap strings pretty list fin_maps sorting.
Close Scope Q_scope.

(** ** Python helpers *)

(** [x < y] on floats. *)
Definition Qltb (x y : Q) : bool := negb (Qle_bool y x).

(** Round half to even, the rounding of Python's [round]. *)
Definition round_half_even (q : Q) : Z :=
  let f := Qfloor q in
  match ((q - inject_Z f) ?= (1 # 2))%Q with
  | Lt => f
  | Gt => (f + 1)%Z
  | Eq => if Z.even f then f else (f + 1)%Z
  end.

(** [round(x, 1)]. *)
Definition py_round1 (x : Q) : Q := round_half_even (x * 10) # 10.

(** [for i, x in enumerate(l): s = body(i, x, s)], counting from [i]. *)
Fixpoint for_enumerate {A St : Type} (body : nat → A → St → St)
    (i : nat) (l : list A) (s : St) : St :=
  match l with
  | [] => s
  | x :: l' => for_enumerate body (S i) l' (body i x s)
  end.

(** [datetime.now()], seen through the two renderings the code takes. *)
Record datetime := Datetime {
  strftime_compact : string;   (* strftime("%Y%m%d_%H%M%S") *)
  isoformat : string           (* isoformat() *)
}.

(** A bounding box [(x, y, w, h)]. *)
Definition box : Type := Z * Z * Z * Z.

(** f"worker_{camera_id}_{i}" *)
Definition worker_name (camera_id : Z) (i : nat) : string :=
  "worker_" +:+ pretty camera_id +:+ "_" +:+ pretty i.

(** What a call of [cv2.imwrite] does: it writes the file and returns
    [True], writes nothing and returns [False] (a directory that is gone, a
    path that cannot be written, a full disk), or raises. *)
Inductive imwrite_outcome := ImwriteTrue | ImwriteFalse | ImwriteRaises.

(** The file name and the reference built by [_capture_violation_screenshot]
    (the same method in both detectors). The reference is returned unless
    [cv2.imwrite] raised; the value it returns is not looked at. *)
Definition screenshot_filename (violation_type : string) (camera_id : Z)
    (worker_id : string) (now : datetime) : string :=
  violation_type +:+ "_" +:+ pretty camera_id +:+ "_" +:+ worker_id +:+ "_"
    +:+ strftime_compact now +:+ ".jpg".

Definition _capture_violation_screenshot (outcome : imwrite_outcome)
    (camera_id : Z) (worker_id violation_type : string) (now : datetime)
    : option string :=
  let filename := screenshot_filename violation_type camera_id worker_id now in
  match outcome with
  | ImwriteTrue | ImwriteFalse =>
      Some ("/static/violations/" +:+ violation_type +:+ "/" +:+ filename)
  | ImwriteRaises => None
  end.

(** Whether the file of a screenshot is on disk after the call. *)
Definition saved (outcome : imwrite_outcome) : bool :=
  match outcome with ImwriteTrue => true | _ => false end.

(** Whether the call ended in the [except] branch. *)
Definition raised (outcome : imwrite_outcome) : bool :=
  match outcome with ImwriteRaises => true | _ => false end.

(** [s] does not contain the character [c]. *)
Fixpoint free_of (c : ascii) (s : string) : Prop :=
  match s with
  | EmptyString => True
  | String a s' => a ≠ c ∧ free_of c s'
  end.

(** ** The safety-gear tracker: [SafetyGearDetector] *)

Module SafetyGear.

Record violation_data := ViolationData {
  worker_id : string;
  missing_gear : list string;
  duration : Q;
  screenshot : option string;
  timestamp : string;
  camera_id : Z
}.

(** The fields of the detector that [detect] reads or writes. [hog] is
    [false] when [load_model] failed ([self.hog = None]). *)
Record t := Detector {
  hog : bool;
  violation_time : gmap Z (gmap string Q);
  alert_threshold : Q;
  violation_history : list violation_data
}.

(** [SafetyGearDetector()] with a model that loaded. *)
Definition init : t :=
  {| hog := true; violation_time := ∅; alert_threshold := 3;
     violation_history := [] |}.

(** What [_analyze_safety_gear] measures on the region of a person: the size
    of the region, of its head part (the top 20%) and of its torso part
    (from 30% to 70%), the share of bright pixels in the head part and the
    share of high-visibility pixels in the torso part. *)
Record region := Region {
  roi_size : N;
  head_size : N;
  bright_ratio : Q;
  torso_size : N;
  vest_ratio : Q
}.

(** [_analyze_safety_gear]: the gear found missing. *)
Definition _analyze_safety_gear (r : region) : list string :=
  if N.eqb (roi_size r) 0 then []
  else
    (if negb (N.eqb (head_size r) 0) && Qltb (bright_ratio r) (1 # 10)
     then ["helmet"] else [])
    ++ (if negb (N.eqb (torso_size r) 0) && Qltb (vest_ratio r) (5 # 100)
        then ["vest"] else []).

(** One person found by [detectMultiScale]: the box, its weight, and the
    region of the frame under the box. *)
Record detection := Detection {
  det_box : box;
  det_weight : Q;
  det_roi : region
}.

(** [missing_gear] in the loop of [detect]. *)
Definition det_gear (d : detection) : list string :=
  _analyze_safety_gear (det_roi d).

(** What one call of [detect] observes. The [k]-th record emitted by the
    pass reads the wall clock twice ([sight_wall (2k)] for the file name,
    [sight_wall (2k+1)] for the record) and calls [cv2.imwrite] once
    ([sight_imwrite k]). *)
Record sight := Sight {
  sight_hits : list detection;
  sight_time : Q;
  sight_wall : nat → datetime;
  sight_imwrite : nat → imwrite_outcome
}.

(** [weights[i] > 0.5] *)
Definition valid_boxes (hits : list detection) : list detection :=
  filter (λ d, Qltb (1 # 2) (det_weight d) = true) hits.

(** [self.violation_time[camera_id]]: the read of a [defaultdict]. *)
Definition windows_of (st : t) (cam : Z) : gmap string Q :=
  default ∅ (violation_time st !! cam).

(** The open window of a worker, if any. *)
Definition window (st : t) (cam : Z) (wid : string) : option Q :=
  windows_of st cam !! wid.

Definition set_windows (st : t) (cam : Z) (ws : gmap string Q) : t :=
  {| hog := hog st;
     violation_time := <[cam := ws]> (violation_time st);
     alert_threshold := alert_threshold st;
     violation_history := violation_history st |}.

Definition push_history (st : t) (r : violation_data) : t :=
  {| hog := hog st;
     violation_time := violation_time st;
     alert_threshold := alert_threshold st;
     violation_history := violation_history st ++ [r] |}.

(** The dictionary [violation_data] built for the [k]-th record of a pass,
    screenshot capture included. *)
Definition violation_record (cam : Z) (s : sight) (k : nat) (wid : string)
    (gear : list string) (violation_duration : Q) : violation_data :=
  let screenshot_path :=
    _capture_violation_screenshot (sight_imwrite s k) cam wid
      "safety_gear" (sight_wall s (2 * k)) in
  {| worker_id := wid;
     missing_gear := gear;
     duration := py_round1 violation_duration;
     screenshot := screenshot_path;
     timestamp := isoformat (sight_wall s (2 * k + 1));
     camera_id := cam |}.

(** The body of the loop over [valid_boxes]; the state of the pass is the
    detector and the list [violations]. *)
Definition track (cam : Z) (s : sight) (i : nat) (d : detection)
    (acc : t * list violation_data) : t * list violation_data :=
  let '(st, violations) := acc in
  let wid := worker_name cam i in
  let current_time := sight_time s in
  let ws := windows_of st cam in
  match det_gear d with
  | _ :: _ =>
      let ws1 :=
        match ws !! wid with
        | None => <[wid := current_time]> ws
        | Some _ => ws
        end in
      let st1 := set_windows st cam ws1 in
      (* the key is in [ws1]: the read cannot fail *)
      let start := default current_time (ws1 !! wid) in
      let violation_duration := (current_time - start)%Q in
      if Qle_bool (alert_threshold st1) violation_duration then
        let r :=
          violation_record cam s (length violations) wid (det_gear d)
            violation_duration in
        (push_history st1 r, violations ++ [r])
      else (st1, violations)
  | [] =>
      let ws1 :=
        match ws !! wid with
        | Some _ => delete wid ws
        | None => ws
        end in
      (set_windows st cam ws1, violations)
  end.

(** [detect(frame, camera_id)]: the detector afterwards and the list of
    violations returned. The drawing calls only write to the frame
    buffer, which the tracker never reads back. *)
Definition detect (st : t) (cam : Z) (s : sight) : t * list violation_data :=
  if hog st then
    for_enumerate (track cam s) 0 (valid_boxes (sight_hits s)) (st, [])
  else (st, []).

(** The caller's loop ([generate_frames]) for one camera: the detector at
    the end and what each pass returned. *)
Fixpoint run (st : t) (cam : Z) (frames : list sight)
    : t * list (list violation_data) :=
  match frames with
  | [] => (st, [])
  | s :: rest =>
      let '(st1, vs) := detect st cam s in
      let '(st2, out) := run st1 cam rest in
      (st2, vs :: out)
  end.

(** What worker [i] of a pass is seen with: [None] when fewer than [i+1]
    people pass the confidence filter. *)
Definition gear_seen (s : sight) (i : nat) : option (list string) :=
  det_gear <$> valid_boxes (sight_hits s) !! i.

(** What a frame does to the window of a worker: [gear] is what the worker
    is seen with, [None] when the worker is not seen. *)
Definition window_next (w : option Q) (now : Q) (gear : option (list string))
    : option Q :=
  match gear with
  | None => w
  | Some [] => None
  | Some (_ :: _) => Some (default now w)
  end.

(** The duration worker [i] is reported with by a pass that starts in
    [st], if the pass reports the worker at all. *)
Definition due (st : t) (cam : Z) (s : sight) (i : nat) (d : detection)
    : option Q :=
  match det_gear d with
  | [] => None
  | _ :: _ =>
      let dur :=
        (sight_time s
         - default (sight_time s) (window st cam (worker_name cam i)))%Q in
      if Qle_bool (alert_threshold st) dur then Some dur else None
  end.

(** The records of a pass over [l], whose first person has index [i], when
    [k] records were emitted before. *)
Fixpoint emitted_from (st : t) (cam : Z) (s : sight) (i : nat)
    (l : list detection) (k : nat) : list violation_data :=
  match l with
  | [] => []
  | d :: l' =>
      match due st cam s i d with
      | Some dur =>
          violation_record cam s k (worker_name cam i) (det_gear d) dur
            :: emitted_from st cam s (S i) l' (S k)
      | None => emitted_from st cam s (S i) l' k
      end
  end.

(** A record without its screenshot. *)
Definition sans_screenshot (r : violation_data)
    : string * list string * Q * string * Z :=
  (worker_id r, missing_gear r, duration r, timestamp r, camera_id r).

(** The same observation with other outcomes for [cv2.imwrite]. *)
Definition with_imwrite (s : sight) (outcomes : nat → imwrite_outcome)
    : sight :=
  {| sight_hits := sight_hits s; sight_time := sight_time s;
     sight_wall := sight_wall s; sight_imwrite := outcomes |}.

(** A worker seen alone at time [now], with or without a helmet and a
    vest. *)
Definition lone_worker (helmet vest : bool) (now : Q) : sight :=
  {| sight_hits :=
       [ {| det_box := (10, 10, 40, 80)%Z; det_weight := 9 # 10;
            det_roi :=
              {| roi_size := 9600; head_size := 1920;
                 bright_ratio := if helmet then 1 # 2 else 0;
                 torso_size := 3840;
                 vest_ratio := if vest then 1 # 2 else 0 |} |} ];
     sight_time := now;
     sight_wall := λ _, Datetime "20240101_000000" "2024-01-01T00:00:00";
     sight_imwrite := λ _, ImwriteTrue |}.

(** The lone worker without a helmet, and with all the gear. *)
Definition bareheaded : Q → sight := lone_worker false true.
Definition equipped : Q → sight := lone_worker true true.

(** A frame in which nobody is detected. *)
Definition nobody (now : Q) : sight :=
  {| sight_hits := [];
     sight_time := now;
     sight_wall := λ _, Datetime "20240101_000000" "2024-01-01T00:00:00";
     sight_imwrite := λ _, ImwriteTrue |}.

End SafetyGear.


(** ** The proximity tracker: [ProximityDetector] *)

Module Proximity.

(** The alert dictionary. The code stores [round(distance, 2)] with
    [distance] the square root of a sum of squares; the embedding keeps
    the sum of squares itself, [distance_sq]. *)
Record alert_data := AlertData {
  worker_id : string;
  machine_id : string;
  distance_sq : Z;
  screenshot : option string;
  timestamp : string;
  camera_id : Z
}.

Record t := Detector {
  proximity_threshold : Q;
  machinery_positions : gmap Z (list box);
  alert_history : gmap Z (gmap string Q);
  alert_cooldown : Q;
  violation_history : list alert_data
}.

(** [ProximityDetector()] *)
Definition init : t :=
  {| proximity_threshold := 80; machinery_positions := ∅;
     alert_history := ∅; alert_cooldown := 5; violation_history := [] |}.

(** A contour of the machinery mask: its area and its bounding rectangle,
    whose height [cv2.boundingRect] never gives as 0. *)
Record contour := Contour {
  contour_area : Q;
  contour_rect : Z * Z * Z * positive
}.

(** What one call of [detect] observes: the people of [detectMultiScale]
    with their weights, the contours of the machinery mask, the clocks and
    the outcomes of [cv2.imwrite], numbered as in the safety-gear tracker. *)
Record sight := Sight {
  sight_hits : list (box * Q);
  sight_contours : list contour;
  sight_time : Q;
  sight_wall : nat → datetime;
  sight_imwrite : nat → imwrite_outcome
}.

(** Whether the [k]-th [cv2.imwrite] of the pass raises. *)
Definition sight_imwrite_raises (s : sight) (k : nat) : bool :=
  raised (sight_imwrite s k).

(** [area > 2000] and [0.5 < w / h < 3.0] *)
Definition machinery_like (c : contour) : bool :=
  let '(_, _, w, h) := contour_rect c in
  let aspect_ratio := (inject_Z w / inject_Z (Zpos h))%Q in
  Qltb 2000 (contour_area c)
  && (Qltb (1 # 2) aspect_ratio && Qltb aspect_ratio 3).

(** The list [machinery] that [_detect_machinery] returns. *)
Definition _detect_machinery (contours : list contour) : list box :=
  (λ c, let '(x, y, w, h) := contour_rect c in (x, y, w, Zpos h))
    <$> filter (λ c, machinery_like c = true) contours.

(** [machinery] in [detect]. *)
Definition sight_machinery (s : sight) : list box :=
  _detect_machinery (sight_contours s).

(** [weights[i] > 0.5] *)
Definition valid_boxes (hits : list (box * Q)) : list box :=
  fst <$> filter (λ h, Qltb (1 # 2) (snd h) = true) hits.

(** [(x + w//2, y + h//2)] *)
Definition center (b : box) : Z * Z :=
  let '(x, y, w, h) := b in ((x + w `div` 2)%Z, (y + h `div` 2)%Z).

(** The value of a numpy int32 operation whose exact result is [z]: [z]
    modulo 2^32, from -2^31 to 2^31 - 1. *)
Definition int32 (z : Z) : Z := ((z + 2 ^ 31) mod 2 ^ 32 - 2 ^ 31)%Z.

(** The sum of squares under [np.sqrt]. The centre of the worker is made
    of the numpy int32 of [detectMultiScale], and an operation of a numpy
    int32 with a Python int is an int32 operation: the two differences,
    their squares and the sum wrap around. ([center] gives the worker's
    centre unwrapped; wrapping the difference makes up for it. The
    rectangles of [cv2.boundingRect] are Python ints that lie in the
    frame.) *)
Definition dist_sq (p q : Z * Z) : Z :=
  let dx := int32 (fst p - fst q) in
  let dy := int32 (snd p - snd q) in
  int32 (int32 (dx ^ 2) + int32 (dy ^ 2)).

(** [np.sqrt(n) < threshold], without the square root. The root of a
    negative [n] is [nan], and [nan < threshold] is [False]. *)
Definition closer_than (n : Z) (threshold : Q) : bool :=
  (0 <=? n)%Z
  && (Qltb 0 threshold && Qltb (inject_Z n) (threshold * threshold)).

(** f"machine_{camera_id}_{j}" *)
Definition machine_name (cam : Z) (j : nat) : string :=
  "machine_" +:+ pretty cam +:+ "_" +:+ pretty j.

(** f"{worker_id}_machine_{j}" *)
Definition pair_key (cam : Z) (i j : nat) : string :=
  worker_name cam i +:+ "_machine_" +:+ pretty j.

(** [self.alert_history[camera_id]]: the read of a [defaultdict]. *)
Definition cooldowns_of (st : t) (cam : Z) : gmap string Q :=
  default ∅ (alert_history st !! cam).

(** [self.alert_history[camera_id].get(key, 0)] *)
Definition last_alert (st : t) (cam : Z) (key : string) : Q :=
  default 0%Q (cooldowns_of st cam !! key).

Definition set_cooldowns (st : t) (cam : Z) (cs : gmap string Q) : t :=
  {| proximity_threshold := proximity_threshold st;
     machinery_positions := machinery_positions st;
     alert_history := <[cam := cs]> (alert_history st);
     alert_cooldown := alert_cooldown st;
     violation_history := violation_history st |}.

Definition push_history (st : t) (r : alert_data) : t :=
  {| proximity_threshold := proximity_threshold st;
     machinery_positions := machinery_positions st;
     alert_history := alert_history st;
     alert_cooldown := alert_cooldown st;
     violation_history := violation_history st ++ [r] |}.

Definition set_machinery (st : t) (cam : Z) (ms : list box) : t :=
  {| proximity_threshold := proximity_threshold st;
     machinery_positions := <[cam := ms]> (machinery_positions st);
     alert_history := alert_history st;
     alert_cooldown := alert_cooldown st;
     violation_history := violation_history st |}.

(** The dictionary [alert_data] built for the [k]-th alert of a pass. *)
Definition alert_record (cam : Z) (s : sight) (k i j : nat) (d2 : Z)
    : alert_data :=
  let wid := worker_name cam i in
  let screenshot_path :=
    _capture_violation_screenshot (sight_imwrite s k) cam wid
      "proximity" (sight_wall s (2 * k)) in
  {| worker_id := wid;
     machine_id := machine_name cam j;
     distance_sq := d2;
     screenshot := screenshot_path;
     timestamp := isoformat (sight_wall s (2 * k + 1));
     camera_id := cam |}.

(** The body of the inner loop, over [machinery], for worker [i]. *)
Definition check_pair (cam : Z) (s : sight) (i : nat) (worker_center : Z * Z)
    (j : nat) (m : box) (acc : t * list alert_data) : t * list alert_data :=
  let '(st, alerts) := acc in
  let machine_center := center m in
  let d2 := dist_sq worker_center machine_center in
  if closer_than d2 (proximity_threshold st) then
    let key := pair_key cam i j in
    let cs := cooldowns_of st cam in
    let st1 := set_cooldowns st cam cs in
    let last := default 0%Q (cs !! key) in
    if Qle_bool (alert_cooldown st1) (sight_time s - last)%Q then
      let r := alert_record cam s (length alerts) i j d2 in
      let st2 := push_history st1 r in
      (set_cooldowns st2 cam (<[key := sight_time s]> cs), alerts ++ [r])
    else (st1, alerts)
  else (st, alerts).

(** The body of the outer loop, over [valid_boxes]. *)
Definition check_worker (cam : Z) (s : sight) (i : nat) (b : box)
    (acc : t * list alert_data) : t * list alert_data :=
  for_enumerate (check_pair cam s i (center b)) 0 (sight_machinery s) acc.

(** [detect(frame, camera_id)]: [_detect_machinery] stores the machinery
    of the frame, then every worker is checked against every machine. *)
Definition detect (st : t) (cam : Z) (s : sight) : t * list alert_data :=
  let st0 := set_machinery st cam (sight_machinery s) in
  for_enumerate (check_worker cam s) 0 (valid_boxes (sight_hits s)) (st0, []).

(** The caller's loop for one camera. *)
Fixpoint run (st : t) (cam : Z) (frames : list sight)
    : t * list (list alert_data) :=
  match frames with
  | [] => (st, [])
  | s :: rest =>
      let '(st1, vs) := detect st cam s in
      let '(st2, out) := run st1 cam rest in
      (st2, vs :: out)
  end.

(** The sum of squares worker [i] (box [b]) and machine [j] (box [m]) are
    alerted with by a pass that starts in [st], if the pass alerts for the
    pair at all. *)
Definition alert_due (st : t) (cam : Z) (s : sight) (i : nat) (b : box)
    (j : nat) (m : box) : option Z :=
  let d2 := dist_sq (center b) (center m) in
  if closer_than d2 (proximity_threshold st)
     && Qle_bool (alert_cooldown st)
          (sight_time s - last_alert st cam (pair_key cam i j))%Q
  then Some d2 else None.

(** The alerts for worker [i] and the machines [ms], the first of which has
    index [j], when [k] alerts were emitted before. *)
Fixpoint alerts_of_worker (st : t) (cam : Z) (s : sight) (i : nat) (b : box)
    (j : nat) (ms : list box) (k : nat) : list alert_data :=
  match ms with
  | [] => []
  | m :: ms' =>
      match alert_due st cam s i b j m with
      | Some d2 =>
          alert_record cam s k i j d2
            :: alerts_of_worker st cam s i b (S j) ms' (S k)
      | None => alerts_of_worker st cam s i b (S j) ms' k
      end
  end.

(** The alerts for the workers [ws], the first of which has index [i]. *)
Fixpoint alerts_from (st : t) (cam : Z) (s : sight) (i : nat) (ws : list box)
    (k : nat) : list alert_data :=
  match ws with
  | [] => []
  | b :: ws' =>
      let row := alerts_of_worker st cam s i b 0 (sight_machinery s) k in
      row ++ alerts_from st cam s (S i) ws' (k + length row)
  end.

(** Worker and machine index pairs, first by worker, then by machine. *)
Definition pair_lt (p q : nat * nat) : Prop :=
  p.1 < q.1 ∨ (p.1 = q.1 ∧ p.2 < q.2).

(** The alerts of a pass that concern worker [i] and machine [j]. *)
Definition alerts_for (cam : Z) (i j : nat) (alerts : list alert_data)
    : list alert_data :=
  filter (λ r, worker_id r = worker_name cam i
               ∧ machine_id r = machine_name cam j) alerts.

(** What an alert says apart from its clock reading and its screenshot. *)
Definition gist (r : alert_data) : string * string * Z * Z :=
  (worker_id r, machine_id r, distance_sq r, camera_id r).

(** One worker and one machine whose centres are 50 apart, at [now]. *)
Definition close_pair (now : Q) : sight :=
  {| sight_hits := [((100, 100, 40, 80)%Z, (9 # 10)%Q)];
     sight_contours := [Contour 7500 (120, 100, 100, 80%positive)%Z];
     sight_time := now;
     sight_wall := λ _, Datetime "20240101_000000" "2024-01-01T00:00:00";
     sight_imwrite := λ _, ImwriteTrue |}.

(** Two workers and two machines at [now]; the first worker is close to
    both machines, the second to the second machine only. *)
Definition two_by_two (now : Q) (wall : nat → datetime) (raises : nat → bool)
    : sight :=
  {| sight_hits := [((100, 100, 40, 80)%Z, (9 # 10)%Q);
                    ((0, 0, 10, 10)%Z, (3 # 10)%Q);
                    ((200, 100, 40, 80)%Z, (8 # 10)%Q)];
     sight_contours := [ Contour 7500 (70, 100, 100, 80%positive)%Z;
                         Contour 900 (300, 300, 40, 30%positive)%Z;
                         Contour 7500 (130, 120, 100, 80%positive)%Z ];
     sight_time := now;
     sight_wall := wall;
     sight_imwrite :=
       λ k, if raises k then ImwriteRaises else ImwriteTrue |}.

End Proximity.

(** ** Stream sources and their registry: [IPCamera], [CameraManager] *)

Module Camera.

Definition loc : Type := positive.

(** *** numpy arrays *)

Definition colour : Type := Z * Z * Z.

Inductive pixels :=
| Zeros                          (* np.zeros(...) *)
| Filled (c : colour)            (* frame[:] = c *)
| Decoded (payload : list Z).    (* a frame decoded by the capture *)

Inductive stroke :=
| PutText (text : string) (org : Z * Z) (scale : Q) (c : colour) (thickness : Z)
| Rectangle (p q : Z * Z) (c : colour) (thickness : Z).

(** An image: what it was created with and what was drawn on it since. *)
Record ndarray := Ndarray {
  shape : nat * nat * nat;
  base : pixels;
  strokes : list stroke
}.

Definition draw (k : stroke) (a : ndarray) : ndarray :=
  {| shape := shape a; base := base a; strokes := strokes a ++ [k] |}.

(** *** The objects *)

(** A [cv2.VideoCapture]. *)
Record capture := Capture {
  cap_url : string;
  cap_opened : bool;
  cap_released : bool
}.

(** The fields of an [IPCamera]. The lock is not a field here: taking and
    releasing it are events of the run. *)
Record IPCamera := {
  url : string;
  name : string;
  cap : option capture;
  last_frame : option loc;
  last_accessed : Q;
  is_running : bool;
  use_fallback : bool;
  fallback_frames : list loc;
  fallback_index : nat;
  fallback_last_time : Q
}.

Definition set_cap (v : option capture) (c : IPCamera) : IPCamera :=
  {| url := url c; name := name c; cap := v; last_frame := last_frame c;
     last_accessed := last_accessed c; is_running := is_running c;
     use_fallback := use_fallback c; fallback_frames := fallback_frames c;
     fallback_index := fallback_index c;
     fallback_last_time := fallback_last_time c |}.

Definition set_is_running (v : bool) (c : IPCamera) : IPCamera :=
  {| url := url c; name := name c; cap := cap c; last_frame := last_frame c;
     last_accessed := last_accessed c; is_running := v;
     use_fallback := use_fallback c; fallback_frames := fallback_frames c;
     fallback_index := fallback_index c;
     fallback_last_time := fallback_last_time c |}.

Definition set_use_fallback (v : bool) (c : IPCamera) : IPCamera :=
  {| url := url c; name := name c; cap := cap c; last_frame := last_frame c;
     last_accessed := last_accessed c; is_running := is_running c;
     use_fallback := v; fallback_frames := fallback_frames c;
     fallback_index := fallback_index c;
     fallback_last_time := fallback_last_time c |}.

Definition set_fallback_frames (v : list loc) (c : IPCamera) : IPCamera :=
  {| url := url c; name := name c; cap := cap c; last_frame := last_frame c;
     last_accessed := last_accessed c; is_running := is_running c;
     use_fallback := use_fallback c; fallback_frames := v;
     fallback_index := fallback_index c;
     fallback_last_time := fallback_last_time c |}.

(** [self.last_frame = frame; self.last_accessed = now] *)
Definition publish (frame : loc) (now : Q) (c : IPCamera) : IPCamera :=
  {| url := url c; name := name c; cap := cap c; last_frame := Some frame;
     last_accessed := now; is_running := is_running c;
     use_fallback := use_fallback c; fallback_frames := fallback_frames c;
     fallback_index := fallback_index c;
     fallback_last_time := fallback_last_time c |}.

(** The four assignments of [_update_fallback_frame]. *)
Definition publish_fallback (index : nat) (frame : loc) (now : Q)
    (c : IPCamera) : IPCamera :=
  {| url := url c; name := name c; cap := cap c; last_frame := Some frame;
     last_accessed := now; is_running := is_running c;
     use_fallback := use_fallback c; fallback_frames := fallback_frames c;
     fallback_index := index; fallback_last_time := now |}.

(** *** The world the methods run in *)

Inductive target := UpdateFrame | UpdateFallbackFrame.

Inductive open_outcome := Opens | StaysClosed | OpenRaises.
Inductive read_outcome := Reads (frame : ndarray) | ReadsNothing | ReadRaises.

(** The heap of arrays, the heap of [IPCamera] objects, the dictionary of
    the [CameraManager], the threads started so far, the clock, and what
    the coming [cv2.VideoCapture(url)] and [cap.read()] calls will do. *)
Record world := World {
  arrays : gmap loc ndarray;
  sources : gmap loc IPCamera;
  cameras : gmap Z loc;
  threads : list (target * loc);
  clock : Q;
  opens : list open_outcome;
  reads : list read_outcome
}.

Definition set_arrays (v : gmap loc ndarray) (w : world) : world :=
  {| arrays := v; sources := sources w; cameras := cameras w;
     threads := threads w; clock := clock w; opens := opens w;
     reads := reads w |}.

Definition set_sources (v : gmap loc IPCamera) (w : world) : world :=
  {| arrays := arrays w; sources := v; cameras := cameras w;
     threads := threads w; clock := clock w; opens := opens w;
     reads := reads w |}.

Definition set_cameras (v : gmap Z loc) (w : world) : world :=
  {| arrays := arrays w; sources := sources w; cameras := v;
     threads := threads w; clock := clock w; opens := opens w;
     reads := reads w |}.

Definition set_threads (v : list (target * loc)) (w : world) : world :=
  {| arrays := arrays w; sources := sources w; cameras := cameras w;
     threads := v; clock := clock w; opens := opens w; reads := reads w |}.

Definition set_clock (v : Q) (w : world) : world :=
  {| arrays := arrays w; sources := sources w; cameras := cameras w;
     threads := threads w; clock := v; opens := opens w; reads := reads w |}.

Definition set_opens (v : list open_outcome) (w : world) : world :=
  {| arrays := arrays w; sources := sources w; cameras := cameras w;
     threads := threads w; clock := clock w; opens := v; reads := reads w |}.

Definition set_reads (v : list read_outcome) (w : world) : world :=
  {| arrays := arrays w; sources := sources w; cameras := cameras w;
     threads := threads w; clock := clock w; opens := opens w; reads := v |}.

(** What a thread does that another thread, or the outside, can see. *)
Inductive event :=
| Acquire (self : loc)           (* entering [with self.lock] *)
| Release (self : loc)           (* leaving it *)
| CapRead (self : loc)           (* self.cap.read() *)
| CapOpen (u : string)           (* cv2.VideoCapture(u) *)
| CapRelease (self : loc)        (* self.cap.release() *)
| Sleep (seconds : Q)            (* time.sleep(seconds) *)
| Stdout (msg : string)         (* print(msg) *)
| Start (tg : target) (self : loc).

Inductive result (A : Type) :=
| Ok (a : A)
| Raised (exn : string).
Arguments Ok {A} a.
Arguments Raised {A} exn.

(** A computation: a result or an exception, the world afterwards, and the
    events in the order they happened. *)
Definition M (A : Type) : Type := world → result A * world * list event.

Definition ret {A} (a : A) : M A := λ w, (Ok a, w, []).

Definition bind {A B} (m : M A) (k : A → M B) : M B := λ w,
  match m w with
  | (Ok a, w1, ev1) =>
      let '(r, w2, ev2) := k a w1 in (r, w2, ev1 ++ ev2)
  | (Raised e, w1, ev1) => (Raised e, w1, ev1)
  end.

Definition raise {A} (e : string) : M A := λ w, (Raised e, w, []).

(** [try: body except Exception as e: handler(e)] *)
Definition try_except {A} (body : M A) (handler : string → M A) : M A := λ w,
  match body w with
  | (Ok a, w1, ev1) => (Ok a, w1, ev1)
  | (Raised e, w1, ev1) =>
      let '(r, w2, ev2) := handler e w1 in (r, w2, ev1 ++ ev2)
  end.

Definition emit (e : event) : M unit := λ w, (Ok tt, w, [e]).
Definition get : M world := λ w, (Ok w, w, []).
Definition modify (f : world → world) : M unit := λ w, (Ok tt, f w, []).

Local Notation "'let!' x := m 'in' k" := (bind m (λ x, k))
  (at level 10, x name, m at level 100, k at level 200).
Local Notation "m >> k" := (bind m (λ _, k))
  (at level 100, k at level 200, right associativity).

(** [with self.lock: body]: the lock is released on the way out, also when
    [body] raises. *)
Definition with_lock {A} (self : loc) (body : M A) : M A := λ w,
  let '(r, w1, ev) := body w in (r, w1, [Acquire self] ++ ev ++ [Release self]).

(** *** Primitives *)

Definition read_self (self : loc) : M IPCamera :=
  let! w := get in
  match sources w !! self with
  | Some c => ret c
  | None => raise "AttributeError"
  end.

Definition update_self (self : loc) (f : IPCamera → IPCamera) : M unit :=
  modify (λ w, set_sources (alter f self (sources w)) w).

(** A new array on the heap. *)
Definition new_array (a : ndarray) : M loc :=
  let! w := get in
  let l := fresh (dom (arrays w)) in
  modify (set_arrays (<[l := a]> (arrays w))) >> ret l.

(** [a.copy()] *)
Definition copy (l : loc) : M loc :=
  let! w := get in
  match arrays w !! l with
  | Some a => new_array a
  | None => raise "AttributeError"
  end.

(** [time.time()] *)
Definition time_time : M Q := let! w := get in ret (clock w).

(** [time.sleep(d)] *)
Definition time_sleep (d : Q) : M unit :=
  emit (Sleep d) >> modify (λ w, set_clock (clock w + d)%Q w).

(** [cv2.VideoCapture(u)] *)
Definition video_capture (u : string) : M capture :=
  emit (CapOpen u) >>
  let! w := get in
  modify (set_opens (tail (opens w))) >>
  match head (opens w) with
  | Some Opens => ret {| cap_url := u; cap_opened := true; cap_released := false |}
  | Some OpenRaises => raise "cv2.error"
  | _ => ret {| cap_url := u; cap_opened := false; cap_released := false |}
  end.

(** [self.cap.read()]: [(ret, frame)], the frame a new array. *)
Definition cap_read (self : loc) : M (option loc) :=
  emit (CapRead self) >>
  let! w := get in
  modify (set_reads (tail (reads w))) >>
  match head (reads w) with
  | Some (Reads a) => let! l := new_array a in ret (Some l)
  | Some ReadRaises => raise "cv2.error"
  | _ => ret None
  end.

(** [self.cap.release()] *)
Definition cap_release (self : loc) : M unit :=
  emit (CapRelease self) >>
  update_self self (λ c,
    set_cap ((λ k, {| cap_url := cap_url k; cap_opened := false;
                      cap_released := true |}) <$> cap c) c).

(** [threading.Thread(target=tg, daemon=True).start()] *)
Definition start_thread (tg : target) (self : loc) : M unit :=
  emit (Start tg self) >>
  modify (λ w, set_threads (threads w ++ [(tg, self)]) w).

(** *** [IPCamera] *)

(** The "offline" frame of [_setup_fallback]. *)
Definition offline_frame (nm : string) : ndarray :=
  {| shape := (480, 640, 3)%nat;
     base := Filled (64, 64, 64)%Z;
     strokes :=
       [ PutText (nm +:+ " - OFFLINE") (50, 200)%Z (12 # 10) (255, 255, 255)%Z 2;
         PutText "Camera not connected" (50, 250)%Z (8 # 10) (200, 200, 200)%Z 2;
         PutText "Please check camera connection" (50, 300)%Z (6 # 10)
           (150, 150, 150)%Z 2;
         Rectangle (10, 10)%Z (630, 470)%Z (100, 100, 100)%Z 2 ] |}.

(** The frame [get_frame] makes up when there is none. *)
Definition no_frame_available (nm : string) : ndarray :=
  {| shape := (480, 640, 3)%nat;
     base := Zeros;
     strokes :=
       [ PutText (nm +:+ " - No Frame Available") (50, 50)%Z (7 # 10)
           (255, 255, 255)%Z 2 ] |}.

Definition _setup_fallback (self : loc) : M unit :=
  let! c := read_self self in
  emit (Stdout ("Setting up fallback video for " +:+ name c)) >>
  update_self self (set_use_fallback true) >>
  update_self self (set_is_running true) >>
  let! frame := new_array (offline_frame (name c)) in
  update_self self (set_fallback_frames [frame]) >>
  start_thread UpdateFallbackFrame self.

Definition connect (self : loc) : M bool :=
  try_except
    (let! c := read_self self in
     let! k := video_capture (url c) in
     update_self self (set_cap (Some k)) >>
     if cap_opened k then
       update_self self (set_is_running true) >>
       start_thread UpdateFrame self >>
       ret true
     else
       emit (Stdout ("Could not open video stream from " +:+ url c)) >>
       _setup_fallback self >>
       ret false)
    (λ e,
     let! c := read_self self in
     emit (Stdout ("Error connecting to camera " +:+ name c +:+ ": " +:+ e)) >>
     _setup_fallback self >>
     ret false).

(** [IPCamera(url, name)] *)
Definition new_IPCamera (u nm : string) : M loc :=
  let! w := get in
  let self := fresh (dom (sources w)) in
  let! now := time_time in
  let c :=
    {| url := u;
       name := if decide (nm = "") then "Camera-" +:+ pretty self else nm;
       cap := None; last_frame := None; last_accessed := now;
       is_running := false; use_fallback := false; fallback_frames := [];
       fallback_index := 0; fallback_last_time := 0 |} in
  modify (λ w, set_sources (<[self := c]> (sources w)) w) >>
  connect self >>
  ret self.

(** Whether the loop of [_update_fallback_frame] goes on. *)
Definition fallback_loop_runs (c : IPCamera) : bool :=
  use_fallback c && is_running c.

(** One turn of the loop of [_update_fallback_frame]. *)
Definition _update_fallback_frame_turn (self : loc) : M unit :=
  let! current_time := time_time in
  let! c := read_self self in
  (if Qltb (1 # 2) (current_time - fallback_last_time c) then
     with_lock self
       (let! c := read_self self in
        match length (fallback_frames c) with
        | O => raise "ZeroDivisionError"
        | S _ =>
            let index := (fallback_index c + 1) mod length (fallback_frames c) in
            match fallback_frames c !! index with
            | Some f =>
                let! f1 := copy f in
                update_self self (publish_fallback index f1 current_time)
            | None => raise "IndexError"
            end
        end)
   else ret tt) >>
  time_sleep (1 # 10).

(** [_update_fallback_frame], for at most [fuel] turns. *)
Fixpoint _update_fallback_frame (fuel : nat) (self : loc) : M unit :=
  match fuel with
  | O => ret tt
  | S n =>
      let! c := read_self self in
      if fallback_loop_runs c then
        _update_fallback_frame_turn self >> _update_fallback_frame n self
      else ret tt
  end.

(** Whether the loop of [_update_frame] goes on. *)
Definition update_loop_runs (c : IPCamera) : bool :=
  is_running c && negb (use_fallback c).

(** One turn of the loop of [_update_frame]; [true] when the turn ends in
    [break]. *)
Definition _update_frame_turn (self : loc) : M bool :=
  try_except
    (with_lock self
       (let! frame := cap_read self in
        match frame with
        | Some f =>
            let! now := time_time in
            update_self self (publish f now) >> ret false
        | None =>
            let! c := read_self self in
            emit (Stdout ("Lost connection to " +:+ name c
                         +:+ ", attempting to reconnect...")) >>
            cap_release self >>
            time_sleep 1 >>
            let! k := video_capture (url c) in
            update_self self (set_cap (Some k)) >>
            if cap_opened k then ret false
            else
              emit (Stdout ("Reconnection failed for " +:+ name c
                           +:+ ", switching to fallback mode")) >>
              _setup_fallback self >>
              ret true
        end))
    (λ e,
     let! c := read_self self in
     emit (Stdout ("Error updating frame from " +:+ name c +:+ ": " +:+ e)) >>
     time_sleep (1 # 2) >>
     ret false).

(** [_update_frame], for at most [fuel] turns. *)
Fixpoint _update_frame (fuel : nat) (self : loc) : M unit :=
  match fuel with
  | O => ret tt
  | S n =>
      let! c := read_self self in
      if update_loop_runs c then
        let! broke := _update_frame_turn self in
        if broke then ret tt else _update_frame n self
      else ret tt
  end.

(** [get_frame()] *)
Definition get_frame (self : loc) : M loc :=
  with_lock self
    (let! c := read_self self in
     match last_frame c with
     | None => new_array (no_frame_available (name c))
     | Some f => copy f
     end).

(** [release()] *)
Definition release (self : loc) : M unit :=
  update_self self (set_is_running false) >>
  let! c := read_self self in
  match cap c with
  | Some _ => cap_release self
  | None => ret tt
  end.

(** *** [CameraManager] *)

(** [add_camera(camera_id, url, name)] *)
Definition add_camera (camera_id : Z) (u nm : string) : M bool :=
  try_except
    (let! camera :=
       new_IPCamera u
         (if decide (nm = "") then "Camera-" +:+ pretty camera_id else nm) in
     modify (λ w, set_cameras (<[camera_id := camera]> (cameras w)) w) >>
     ret true)
    (λ e,
     emit (Stdout ("Error adding camera " +:+ pretty camera_id +:+ ": " +:+ e)) >>
     ret false).

(** [get_camera(camera_id)] *)
Definition get_camera (camera_id : Z) : M (option loc) :=
  let! w := get in ret (cameras w !! camera_id).

(** [remove_camera(camera_id)] *)
Definition remove_camera (camera_id : Z) : M bool :=
  let! w := get in
  match cameras w !! camera_id with
  | Some camera =>
      release camera >>
      modify (λ w, set_cameras (delete camera_id (cameras w)) w) >>
      ret true
  | None => ret false
  end.

(** [get_all_cameras()] *)
Definition get_all_cameras : M (gmap Z loc) :=
  let! w := get in ret (cameras w).

(** [for x in l: body(x)] *)
Fixpoint for_each {A} (l : list A) (body : A → M unit) : M unit :=
  match l with
  | [] => ret tt
  | x :: l' => body x >> for_each l' body
  end.

(** The dictionary [default_cameras]. *)
Definition default_cameras : gmap Z string :=
  <[0%Z := "0"]> (<[1%Z := "1"]> (<[2%Z := "sample_video.mp4"]>
    (<[3%Z := "rtsp://example.com/live/stream"]> ∅))).

(** [os.getenv(key, default)], the environment being a dictionary. *)
Definition os_getenv (env : gmap string string) (key : string)
    (default : option string) : option string :=
  match env !! key with
  | Some v => Some v
  | None => default
  end.

(** [os.getenv(f"CAMERA_{i}_URL", default_cameras.get(i))] *)
Definition camera_url (env : gmap string string) (i : Z) : option string :=
  os_getenv env ("CAMERA_" +:+ pretty i +:+ "_URL") (default_cameras !! i).

(** The body of the loop of [_load_cameras_from_env]: a URL that is [None]
    or empty is skipped. *)
Definition load_camera (env : gmap string string) (i : Z) : M unit :=
  match camera_url env i with
  | Some u => if decide (u = "") then ret tt else add_camera i u "" >> ret tt
  | None => ret tt
  end.

(** [_load_cameras_from_env()]: the loop over [range(4)]. *)
Definition _load_cameras_from_env (env : gmap string string) : M unit :=
  for_each [0; 1; 2; 3]%Z (load_camera env).

(** *** Reading a run *)

(** Whether the coming [cv2.VideoCapture(url)] opens. *)
Definition will_open (w : world) : bool :=
  match head (opens w) with
  | Some Opens => true
  | _ => false
  end.

(** A source after [release()]. *)
Definition released (c : IPCamera) : IPCamera :=
  set_cap ((λ k, {| cap_url := cap_url k; cap_opened := false;
                    cap_released := true |}) <$> cap c)
    (set_is_running false c).

(** A started thread is alive while the condition of its loop holds. *)
Definition alive (w : world) (th : target * loc) : bool :=
  match sources w !! th.2 with
  | Some c =>
      match th.1 with
      | UpdateFrame => update_loop_runs c
      | UpdateFallbackFrame => fallback_loop_runs c
      end
  | None => false
  end.

(** The calls a thread can be stuck in. *)
Definition blocking (e : event) : bool :=
  match e with
  | CapRead _ | CapOpen _ | Sleep _ => true
  | _ => false
  end.

(** The blocking calls made while some lock is held: [held] counts the
    locks held on entry. *)
Fixpoint blocked_holding (held : nat) (evs : list event) : list event :=
  match evs with
  | [] => []
  | Acquire _ :: rest => blocked_holding (S held) rest
  | Release _ :: rest => blocked_holding (pred held) rest
  | e :: rest =>
      if blocking e && negb (Nat.eqb held 0)
      then e :: blocked_holding held rest
      else blocked_holding held rest
  end.

(** [m], run in [w], leaves the source object at [old] as it is and does not
    release its capture. *)
Definition spares (old : loc) {A} (m : M A) (w : world) : Prop :=
  sources (m w).1.2 !! old = sources w !! old ∧ CapRelease old ∉ (m w).2.

(** An empty world: nothing allocated, no camera, the clock at [now]. *)
Definition empty_world (now : Q) (os : list open_outcome)
    (rs : list read_outcome) : world :=
  {| arrays := ∅; sources := ∅; cameras := ∅; threads := []; clock := now;
     opens := os; reads := rs |}.

End Camera.

(** ** The violation store: what [ViolationDatabase.add_violation] inserts *)

Module Database.

(** The Python values met in the dictionaries of the two trackers.
    [VRoot n] stands for [round(np.sqrt(n), 2)], the distance of an alert,
    of which the trackers' embedding keeps the square [n]. *)
Inductive value :=
| VNone
| VStr (s : string)
| VInt (n : Z)
| VFloat (q : Q)
| VList (l : list string)
| VRoot (n : Z).

Definition dict := gmap string value.

(** [d.get(key, default)] *)
Definition dict_get (d : dict) (key : string) (dflt : value) : value :=
  default dflt (d !! key).

(** The result of [_capture_violation_screenshot] as a Python value. *)
Definition path_value (p : option string) : value :=
  match p with Some s => VStr s | None => VNone end.

(** The dictionary [violation_data] of [SafetyGearDetector.detect]. *)
Definition violation_dict (r : SafetyGear.violation_data) : dict :=
  <["camera_id" := VInt (SafetyGear.camera_id r)]>
  (<["timestamp" := VStr (SafetyGear.timestamp r)]>
  (<["screenshot" := path_value (SafetyGear.screenshot r)]>
  (<["duration" := VFloat (SafetyGear.duration r)]>
  (<["missing_gear" := VList (SafetyGear.missing_gear r)]>
  (<["worker_id" := VStr (SafetyGear.worker_id r)]> ∅))))).

(** The dictionary [alert_data] of [ProximityDetector.detect]. *)
Definition alert_dict (r : Proximity.alert_data) : dict :=
  <["camera_id" := VInt (Proximity.camera_id r)]>
  (<["timestamp" := VStr (Proximity.timestamp r)]>
  (<["screenshot" := path_value (Proximity.screenshot r)]>
  (<["distance" := VRoot (Proximity.distance_sq r)]>
  (<["machine_id" := VStr (Proximity.machine_id r)]>
  (<["worker_id" := VStr (Proximity.worker_id r)]> ∅))))).

(** The columns that the [INSERT] of [add_violation] names, in its order. *)
Record params := Params {
  timestamp : value;
  camera_id : value;
  violation_type : value;
  worker_id : value;
  details : value;
  duration : value;
  screenshot_path : value;
  status : value;
  analysis : value
}.

(** The tuple of parameters that [add_violation] binds; [now] is
    [datetime.now().isoformat()]. *)
Definition add_violation_params (now : string) (violation_data : dict)
    : params :=
  {| timestamp := dict_get violation_data "timestamp" (VStr now);
     camera_id := dict_get violation_data "camera_id" (VInt 0);
     violation_type := dict_get violation_data "type" (VStr "unknown");
     worker_id := dict_get violation_data "worker_id" (VStr "");
     details := dict_get violation_data "details" (VStr "");
     duration := dict_get violation_data "duration" (VInt 0);
     screenshot_path := dict_get violation_data "screenshot" (VStr "");
     status := dict_get violation_data "status" (VStr "ongoing");
     analysis := dict_get violation_data "analysis" (VStr "") |}.

End Database.

Arguments SafetyGear.track : simpl never.
Arguments SafetyGear.det_gear : simpl never.
Arguments Proximity.check_pair : simpl never.
Arguments Proximity.sight_machinery : simpl never.

(** * Properties *)

(** ** Arithmetic *)

Lemma Qltb_lt x y : Qltb x y = true ↔ (x < y)%Q.
Proof.
  unfold Qltb. rewrite negb_true_iff, <- not_true_iff_false, Qle_bool_iff.
  split; [apply Qnot_le_lt | apply Qlt_not_le].
Qed.

(** ** Names and keys *)

Lemma worker_name_inj cam i j : worker_name cam i = worker_name cam j → i = j.
Proof.
  unfold worker_name. intros H.
  do 3 apply (inj (String.append _)) in H.
  by apply (inj pretty) in H.
Qed.

Lemma pretty_N_char_free x : pretty_N_char x ≠ "_"%char.
Proof. unfold pretty_N_char. by repeat case_match. Qed.

Lemma pretty_N_go_free x s : free_of "_" s → free_of "_" (pretty_N_go x s).
Proof.
  revert s. induction (N.lt_wf_0 x) as [x _ IH]; intros s Hs.
  destruct (decide (x = 0)%N) as [->|Hx].
  - by rewrite pretty_N_go_0.
  - rewrite pretty_N_go_step by lia. apply IH.
    + apply N.div_lt; lia.
    + split; [apply pretty_N_char_free | done].
Qed.

Lemma pretty_nat_free (n : nat) : free_of "_" (pretty n).
Proof.
  unfold pretty, pretty_nat, pretty, pretty_N. case_decide.
  - simpl. split; [done | exact I].
  - by apply pretty_N_go_free.
Qed.

Lemma string_app_cons c (a b : string) : String c a +:+ b = String c (a +:+ b).
Proof. reflexivity. Qed.

Lemma string_app_assoc (a b c : string) : (a +:+ b) +:+ c = a +:+ (b +:+ c).
Proof.
  induction a as [|x a IH]; [done |].
  by rewrite !string_app_cons, IH.
Qed.

(** Two strings without ["_"], each followed by ["_"]: the first ["_"] tells
    where either ends. *)
Lemma free_of_split a a' b b' :
  free_of "_" a → free_of "_" a' →
  a +:+ String "_" b = a' +:+ String "_" b' → a = a' ∧ b = b'.
Proof.
  revert a'. induction a as [|c a IH]; intros [|c' a'] Ha Ha' H.
  - change (String "_" b = String "_" b') in H. by simplify_eq.
  - change (String "_" b = String c' (a' +:+ String "_" b')) in H.
    simplify_eq. by destruct Ha'.
  - change (String c (a +:+ String "_" b) = String "_" b') in H.
    simplify_eq. by destruct Ha.
  - rewrite !string_app_cons in H. injection H as -> H.
    destruct Ha as [_ Ha], Ha' as [_ Ha'].
    destruct (IH a' Ha Ha' H) as [-> ->]; done.
Qed.

Lemma pair_key_inj cam i j i' j' :
  Proximity.pair_key cam i j = Proximity.pair_key cam i' j' → i = i' ∧ j = j'.
Proof.
  unfold Proximity.pair_key, worker_name. intros H.
  rewrite !string_app_assoc in H.
  do 3 apply (inj (String.append _)) in H.
  apply free_of_split in H as [Hi Hj]; try apply pretty_nat_free.
  apply (inj pretty) in Hi. injection Hj as Hj.
  by apply (inj pretty) in Hj.
Qed.

Lemma round_half_even_floor q : (Qfloor q ≤ round_half_even q)%Z.
Proof.
  unfold round_half_even.
  destruct (_ ?= _)%Q; [destruct (Z.even _) | |]; lia.
Qed.

(** Rounding to tenths never goes below a tenth that is below the number. *)
Lemma py_round1_tenth (n : Z) (x : Q) : (n # 10 <= x)%Q → (n # 10 <= py_round1 x)%Q.
Proof.
  intros H. unfold py_round1.
  assert (inject_Z n <= x * 10)%Q as Hn.
  { unfold Qle in *. simpl in *. lia. }
  apply Qfloor_resp_le in Hn. rewrite Qfloor_Z in Hn.
  pose proof (round_half_even_floor (x * 10)).
  unfold Qle. simpl. lia.
Qed.

(** ** The safety-gear tracker *)

Section SafetyGearFacts.
Import SafetyGear.

Context (cam : Z) (s : sight).

Lemma windows_of_set_eq st ws : windows_of (set_windows st cam ws) cam = ws.
Proof. unfold windows_of, set_windows. simpl. by rewrite lookup_insert_eq. Qed.

Lemma windows_of_push st r c : windows_of (push_history st r) c = windows_of st c.
Proof. reflexivity. Qed.

Lemma track_window_same i d st vs :
  window (track cam s i d (st, vs)).1 cam (worker_name cam i)
  = window_next (window st cam (worker_name cam i)) (sight_time s)
      (Some (det_gear d)).
Proof.
  unfold track, window.
  destruct (det_gear d) as [|g gs]; simpl;
    destruct (windows_of st cam !! worker_name cam i) as [t0|] eqn:Hw; simpl;
    repeat (destruct (Qle_bool _ _); simpl);
    rewrite ?windows_of_push, ?windows_of_set_eq, ?lookup_delete_eq,
      ?lookup_insert_eq; done.
Qed.

Lemma track_window_other i d st vs wid :
  wid ≠ worker_name cam i →
  window (track cam s i d (st, vs)).1 cam wid = window st cam wid.
Proof.
  intros Hne. unfold track, window.
  destruct (det_gear d) as [|g gs]; simpl;
    destruct (windows_of st cam !! worker_name cam i) as [t0|] eqn:Hw; simpl;
    repeat (destruct (Qle_bool _ _); simpl);
    rewrite ?windows_of_push, ?windows_of_set_eq, ?lookup_delete_ne,
      ?lookup_insert_ne; done.
Qed.

Lemma track_other_camera i d st vs cam' :
  cam' ≠ cam →
  violation_time (track cam s i d (st, vs)).1 !! cam' = violation_time st !! cam'.
Proof.
  intros Hne. unfold track.
  destruct (det_gear d) as [|g gs]; simpl;
    repeat (destruct (Qle_bool _ _); simpl);
    by rewrite lookup_insert_ne.
Qed.

Lemma track_settings i d st vs :
  alert_threshold (track cam s i d (st, vs)).1 = alert_threshold st
  ∧ hog (track cam s i d (st, vs)).1 = hog st.
Proof.
  unfold track.
  destruct (det_gear d) as [|g gs]; simpl;
    repeat (destruct (Qle_bool _ _); simpl); done.
Qed.

(** What one turn of the loop appends, to [violations] and to the history. *)
Lemma track_out i d st vs :
  let new :=
    option_list
      (violation_record cam s (length vs) (worker_name cam i) (det_gear d)
         <$> due st cam s i d) in
  (track cam s i d (st, vs)).2 = vs ++ new
  ∧ violation_history (track cam s i d (st, vs)).1 = violation_history st ++ new.
Proof.
  unfold track, due, window.
  destruct (det_gear d) as [|g gs]; simpl.
  { by rewrite !app_nil_r. }
  destruct (windows_of st cam !! worker_name cam i) as [t0|] eqn:Hw; simpl.
  - rewrite Hw. simpl.
    destruct (Qle_bool _ _); simpl; by rewrite ?app_nil_r.
  - rewrite lookup_insert_eq. simpl.
    destruct (Qle_bool _ _); simpl; by rewrite ?app_nil_r.
Qed.

(** [due] and [emitted_from] only look at the threshold and at the windows
    of the people still to come. *)
Lemma due_ext st st' i d :
  alert_threshold st' = alert_threshold st →
  window st' cam (worker_name cam i) = window st cam (worker_name cam i) →
  due st' cam s i d = due st cam s i d.
Proof. intros Ht Hw. unfold due. by rewrite Ht, Hw. Qed.

Lemma emitted_from_ext st st' l : ∀ i k,
  alert_threshold st' = alert_threshold st →
  (∀ j, i ≤ j → window st' cam (worker_name cam j) = window st cam (worker_name cam j)) →
  emitted_from st' cam s i l k = emitted_from st cam s i l k.
Proof.
  induction l as [|d l IH]; intros i k Ht Hw; [done |].
  simpl. rewrite (due_ext st st') by auto.
  destruct (due st cam s i d); rewrite IH; auto with lia.
Qed.

Lemma loop_settings l : ∀ i st vs,
  let res := for_enumerate (track cam s) i l (st, vs) in
  alert_threshold res.1 = alert_threshold st ∧ hog res.1 = hog st
  ∧ ∀ cam', cam' ≠ cam → violation_time res.1 !! cam' = violation_time st !! cam'.
Proof.
  induction l as [|d l IH]; intros i st vs; simpl; [done |].
  destruct (track cam s i d (st, vs)) as [st1 vs1] eqn:Ht.
  destruct (IH (S i) st1 vs1) as (H1 & H2 & H3).
  pose proof (track_settings i d st vs) as [H4 H5].
  rewrite Ht in H4, H5. simpl in *.
  split; [congruence | split; [congruence |]].
  intros cam' Hne. rewrite H3 by done.
  pose proof (track_other_camera i d st vs cam' Hne) as H6.
  by rewrite Ht in H6.
Qed.

Lemma loop_window_other l : ∀ i st vs wid,
  (∀ j, j < length l → wid ≠ worker_name cam (i + j)) →
  window (for_enumerate (track cam s) i l (st, vs)).1 cam wid = window st cam wid.
Proof.
  induction l as [|d l IH]; intros i st vs wid Hne; simpl; [done |].
  destruct (track cam s i d (st, vs)) as [st1 vs1] eqn:Ht.
  rewrite IH.
  - pose proof (track_window_other i d st vs wid) as H. rewrite Ht in H.
    apply H. specialize (Hne 0). rewrite Nat.add_0_r in Hne.
    apply Hne. simpl. lia.
  - intros j Hj. replace (S i + j) with (i + S j) by lia.
    apply Hne. simpl. lia.
Qed.

Lemma loop_window_seen l : ∀ i st vs j d,
  l !! j = Some d →
  window (for_enumerate (track cam s) i l (st, vs)).1 cam (worker_name cam (i + j))
  = window_next (window st cam (worker_name cam (i + j))) (sight_time s)
      (Some (det_gear d)).
Proof.
  induction l as [|d0 l IH]; intros i st vs j d Hj; [done |].
  simpl. destruct (track cam s i d0 (st, vs)) as [st1 vs1] eqn:Ht.
  destruct j as [|j]; simpl in Hj.
  - injection Hj as ->. rewrite Nat.add_0_r.
    rewrite loop_window_other.
    + pose proof (track_window_same i d st vs) as H. by rewrite Ht in H.
    + intros j _ Heq. apply worker_name_inj in Heq. lia.
  - replace (i + S j) with (S i + j) by lia.
    rewrite (IH (S i) st1 vs1 j d Hj).
    pose proof (track_window_other i d0 st vs (worker_name cam (S i + j))) as H.
    rewrite Ht in H. cbn [fst] in H. rewrite H; [done |].
    intros Heq. apply worker_name_inj in Heq. lia.
Qed.

Lemma loop_emitted l : ∀ i st vs,
  let res := for_enumerate (track cam s) i l (st, vs) in
  let new := emitted_from st cam s i l (length vs) in
  res.2 = vs ++ new ∧ violation_history res.1 = violation_history st ++ new.
Proof.
  induction l as [|d l IH]; intros i st vs; simpl.
  { by rewrite !app_nil_r. }
  destruct (track cam s i d (st, vs)) as [st1 vs1] eqn:Ht.
  destruct (IH (S i) st1 vs1) as [H1 H2].
  pose proof (track_out i d st vs) as [H3 H4].
  pose proof (track_settings i d st vs) as [H5 _].
  rewrite Ht in H3, H4, H5. simpl in *.
  assert (∀ k, emitted_from st1 cam s (S i) l k = emitted_from st cam s (S i) l k)
    as Hext.
  { intros k. apply emitted_from_ext; [done |].
    intros j Hj.
    pose proof (track_window_other i d st vs (worker_name cam j)) as H.
    rewrite Ht in H. apply H. intros Heq. apply worker_name_inj in Heq. lia. }
  rewrite H1, H2, Hext, H3, H4.
  destruct (due st cam s i d) as [dur|]; simpl.
  - rewrite length_app. simpl. rewrite Nat.add_1_r, <- !app_assoc. done.
  - by rewrite !app_nil_r.
Qed.

End SafetyGearFacts.

Section SafetyGearPass.
Import SafetyGear.

Context (cam : Z) (s : sight).

Lemma emitted_from_lookup st l : ∀ i k n r,
  emitted_from st cam s i l k !! n = Some r →
  ∃ j d dur, l !! j = Some d ∧ due st cam s (i + j) d = Some dur
    ∧ r = violation_record cam s (k + n) (worker_name cam (i + j)) (det_gear d) dur.
Proof.
  induction l as [|d l IH]; intros i k n r Hr; [done |].
  simpl in Hr. destruct (due st cam s i d) as [dur|] eqn:Hdue.
  - destruct n as [|n]; simpl in Hr.
    + injection Hr as <-. exists 0, d, dur.
      rewrite !Nat.add_0_r. done.
    + apply IH in Hr as (j & d' & dur' & Hj & Hd & ->).
      exists (S j), d', dur'.
      replace (i + S j) with (S i + j) by lia.
      replace (k + S n) with (S k + n) by lia. done.
  - apply IH in Hr as (j & d' & dur' & Hj & Hd & ->).
    exists (S j), d', dur'. replace (i + S j) with (S i + j) by lia. done.
Qed.

Lemma emitted_from_filter_other st l : ∀ i k wid,
  (∀ j, j < length l → wid ≠ worker_name cam (i + j)) →
  filter (λ r, worker_id r = wid) (emitted_from st cam s i l k) = [].
Proof.
  induction l as [|d l IH]; intros i k wid Hne; [done |].
  assert (wid ≠ worker_name cam i) as Hi.
  { specialize (Hne 0). rewrite Nat.add_0_r in Hne. apply Hne. simpl. lia. }
  assert (∀ j, j < length l → wid ≠ worker_name cam (S i + j)) as Hrest.
  { intros j Hj. replace (S i + j) with (i + S j) by lia. apply Hne. simpl. lia. }
  simpl. destruct (due st cam s i d) as [dur|].
  - rewrite filter_cons_False by (simpl; congruence). by apply IH.
  - by apply IH.
Qed.

(** The records of a pass that name worker [i + j]: one when the worker is
    due, none otherwise. *)
Lemma emitted_from_filter st l : ∀ i k j d,
  l !! j = Some d →
  ∃ k', filter (λ r, worker_id r = worker_name cam (i + j))
          (emitted_from st cam s i l k)
        = option_list
            (violation_record cam s k' (worker_name cam (i + j)) (det_gear d)
               <$> due st cam s (i + j) d).
Proof.
  induction l as [|d0 l IH]; intros i k j d Hj; [done |].
  destruct j as [|j]; simpl in Hj.
  - injection Hj as ->. rewrite Nat.add_0_r. simpl.
    assert (∀ k0, filter (λ r, worker_id r = worker_name cam i)
                    (emitted_from st cam s (S i) l k0) = []) as Hrest.
    { intros k0. apply emitted_from_filter_other.
      intros j _ Heq. apply worker_name_inj in Heq. lia. }
    destruct (due st cam s i d) as [dur|]; simpl.
    + exists k. rewrite filter_cons_True by done. by rewrite Hrest.
    + exists k. apply Hrest.
  - replace (i + S j) with (S i + j) by lia. cbn [emitted_from].
    destruct (due st cam s i d0) as [dur|].
    + destruct (IH (S i) (S k) j d Hj) as [k' Hk']. exists k'.
      rewrite filter_cons_False; [done |].
      simpl. intros Heq. apply worker_name_inj in Heq. lia.
    + apply IH, Hj.
Qed.

Lemma detect_settings st :
  alert_threshold (detect st cam s).1 = alert_threshold st
  ∧ hog (detect st cam s).1 = hog st
  ∧ ∀ cam', cam' ≠ cam →
      violation_time (detect st cam s).1 !! cam' = violation_time st !! cam'.
Proof.
  unfold detect. destruct (hog st) eqn:Hh; [| done].
  pose proof (loop_settings cam s (valid_boxes (sight_hits s)) 0 st []) as H.
  simpl in H. by rewrite Hh in H.
Qed.

Lemma detect_emitted st :
  (detect st cam s).2
  = (if hog st then emitted_from st cam s 0 (valid_boxes (sight_hits s)) 0 else [])
  ∧ violation_history (detect st cam s).1
    = violation_history st ++ (detect st cam s).2.
Proof.
  unfold detect. destruct (hog st); simpl.
  - destruct (loop_emitted cam s (valid_boxes (sight_hits s)) 0 st []) as [H1 H2].
    simpl in *. by rewrite H2, H1.
  - by rewrite app_nil_r.
Qed.

(** The window of worker [i] after a pass. *)
Lemma detect_window st i :
  window (detect st cam s).1 cam (worker_name cam i)
  = window_next (window st cam (worker_name cam i)) (sight_time s)
      (if hog st then gear_seen s i else None).
Proof.
  unfold detect, gear_seen. destruct (hog st); [| done].
  destruct (valid_boxes (sight_hits s) !! i) as [d|] eqn:Hi; simpl.
  - apply (loop_window_seen cam s _ 0 st [] i d Hi).
  - apply loop_window_other. intros j Hj Heq.
    apply worker_name_inj in Heq. simpl in Heq. subst j.
    apply lookup_ge_None in Hi. lia.
Qed.

(** Who a returned record is about, and what it says. *)
Lemma detect_reports st r :
  r ∈ (detect st cam s).2 →
  ∃ j g, hog st = true ∧ gear_seen s j = Some g ∧ g ≠ []
    ∧ worker_id r = worker_name cam j ∧ camera_id r = cam ∧ missing_gear r = g
    ∧ duration r
      = py_round1 (sight_time s
                   - default (sight_time s) (window st cam (worker_name cam j)))
    ∧ (alert_threshold st
       <= sight_time s
          - default (sight_time s) (window st cam (worker_name cam j)))%Q.
Proof.
  destruct (detect_emitted st) as [Hout _]. rewrite Hout.
  destruct (hog st) eqn:Hh; [| by intros ?%elem_of_nil].
  intros (n & Hn)%list_elem_of_lookup.
  apply emitted_from_lookup in Hn as (j & d & dur & Hj & Hdue & ->).
  exists j, (det_gear d). simpl in *.
  unfold gear_seen. rewrite Hj. simpl.
  unfold due in Hdue. destruct (det_gear d) as [|g gs] eqn:Hg; [done |].
  destruct (Qle_bool _ _) eqn:Hle; [| done].
  injection Hdue as <-. apply Qle_bool_iff in Hle.
  repeat split; done.
Qed.

End SafetyGearPass.

Section SafetyGearClaims.
Import SafetyGear.

(** C1. A pass of the safety-gear tracker returns a record for a worker only
    when the time elapsed since the start of that worker's open window is
    at least [alert_threshold]. The record carries that elapsed time
    rounded to tenths, which is at least every tenth that the threshold
    reaches (so at least the threshold itself when it is a number of
    tenths, as the default 3 is). *)
Theorem no_early_violation (st : t) (cam : Z) (s : sight) (r : violation_data) :
  r ∈ (detect st cam s).2 →
  ∃ i start,
    worker_id r = worker_name cam i
    ∧ window (detect st cam s).1 cam (worker_id r) = Some start
    ∧ (alert_threshold st <= sight_time s - start)%Q
    ∧ duration r = py_round1 (sight_time s - start)
    ∧ ∀ n : Z, (n # 10 <= alert_threshold st)%Q → (n # 10 <= duration r)%Q.
Proof.
  intros (j & g & Hh & Hseen & Hg & Hid & _ & _ & Hdur & Hle)%detect_reports.
  exists j, (default (sight_time s) (window st cam (worker_name cam j))).
  split; [done |]. split.
  - rewrite Hid, detect_window, Hh, Hseen. by destruct g.
  - split; [done |]. split; [done |].
    intros n Hn. rewrite Hdur. apply py_round1_tenth.
    by eapply Qle_trans.
Qed.

Lemma no_early_violation_witness :
  let st := (run init 1 (map bareheaded [0; 1; 2]%Q)).1 in
  let s := bareheaded 3 in
  let r := violation_record 1 s 0 (worker_name 1 0) ["helmet"] (3 - 0)%Q in
  r ∈ (detect st 1 s).2
  ∧ ∃ i start,
      worker_id r = worker_name 1 i
      ∧ window (detect st 1 s).1 1 (worker_id r) = Some start
      ∧ (alert_threshold st <= sight_time s - start)%Q
      ∧ duration r = py_round1 (sight_time s - start)
      ∧ ∀ n : Z, (n # 10 <= alert_threshold st)%Q → (n # 10 <= duration r)%Q.
Proof.
  assert (violation_record 1 (bareheaded 3) 0 (worker_name 1 0)
            ["helmet"] (3 - 0)%Q
          ∈ (detect (run init 1 (map bareheaded [0; 1; 2]%Q)).1 1
               (bareheaded 3)).2) as Hin.
  { vm_compute. apply list_elem_of_here. }
  split; [exact Hin |].
  exact (no_early_violation _ _ _ _ Hin).
Defined.

(** C4. While a worker stays non-compliant past the threshold, every pass
    that sees the worker returns one record for it (and adds it to the
    history); the window stays as it is. With the threshold at 3 and one
    frame a second from t=0 to t=5, records come at t=3, t=4 and t=5. *)
Theorem reemits_on_every_qualifying_frame :
  (∀ st cam s i g start,
     hog st = true → gear_seen s i = Some g → g ≠ [] →
     window st cam (worker_name cam i) = Some start →
     (alert_threshold st <= sight_time s - start)%Q →
     ∃ r,
       filter (λ r, worker_id r = worker_name cam i) (detect st cam s).2 = [r]
       ∧ duration r = py_round1 (sight_time s - start)
       ∧ r ∈ violation_history (detect st cam s).1
       ∧ window (detect st cam s).1 cam (worker_name cam i) = Some start)
  ∧ map (map (λ r, (worker_id r, Qred (duration r))))
      (run init 1 (map bareheaded [0; 1; 2; 3; 4; 5]%Q)).2
    = [ []; []; []; [("worker_1_0", 3%Q)]; [("worker_1_0", 4%Q)];
        [("worker_1_0", 5%Q)] ].
Proof.
  split; [| by vm_compute].
  intros st cam s i g start Hh Hseen Hg Hw Hle.
  destruct (detect_emitted cam s st) as [Hout Hhist].
  unfold gear_seen in Hseen.
  destruct (valid_boxes (sight_hits s) !! i) as [d|] eqn:Hi; [| done].
  injection Hseen as Hd.
  destruct (emitted_from_filter cam s st _ 0 0 i d Hi) as [k' Hk'].
  simpl in Hk'.
  assert (due st cam s i d = Some (sight_time s - start)%Q) as Hdue.
  { unfold due. rewrite Hd, Hw. destruct g; [done |]. simpl.
    apply Qle_bool_iff in Hle. by rewrite Hle. }
  rewrite Hdue in Hk'. simpl in Hk'.
  exists (violation_record cam s k' (worker_name cam i) (det_gear d)
            (sight_time s - start)).
  rewrite Hout, Hh. split; [done |]. split; [done |]. split.
  - rewrite Hhist, Hout, Hh. apply elem_of_app. right.
    eapply (list_elem_of_filter (λ r, worker_id r = worker_name cam i)).
    rewrite Hk'. apply list_elem_of_here.
  - rewrite detect_window, Hh. unfold gear_seen. rewrite Hi, Hw. simpl.
    rewrite Hd. by destruct g.
Qed.

Lemma reemits_on_every_qualifying_frame_witness :
  let st := (run init 1 (map bareheaded [0; 1; 2; 3]%Q)).1 in
  let s := bareheaded 4 in
  ∃ r,
    filter (λ r, worker_id r = worker_name 1 0) (detect st 1 s).2 = [r]
    ∧ duration r = py_round1 (sight_time s - 0)
    ∧ r ∈ violation_history (detect st 1 s).1
    ∧ window (detect st 1 s).1 1 (worker_name 1 0) = Some 0%Q.
Proof.
  apply (proj1 reemits_on_every_qualifying_frame
           (run init 1 (map bareheaded [0; 1; 2; 3]%Q)).1
           1%Z (bareheaded 4) 0 ["helmet"] 0%Q).
  - reflexivity.
  - reflexivity.
  - discriminate.
  - by vm_compute.
  - by vm_compute.
Defined.

End SafetyGearClaims.

Section SafetyGearScreenshots.
Import SafetyGear.

Context (cam : Z) (s : sight) (outcomes : nat → imwrite_outcome).

(** The outcome of [cv2.imwrite] reaches nothing but the screenshot field. *)
Lemma track_imwrite i d st st' vs vs' :
  violation_time st' = violation_time st →
  alert_threshold st' = alert_threshold st →
  map sans_screenshot vs' = map sans_screenshot vs →
  violation_time (track cam (with_imwrite s outcomes) i d (st', vs')).1
  = violation_time (track cam s i d (st, vs)).1
  ∧ alert_threshold (track cam (with_imwrite s outcomes) i d (st', vs')).1
    = alert_threshold (track cam s i d (st, vs)).1
  ∧ map sans_screenshot (track cam (with_imwrite s outcomes) i d (st', vs')).2
    = map sans_screenshot (track cam s i d (st, vs)).2.
Proof.
  intros Hvt Hth Hvs.
  assert (length vs' = length vs) as Hlen.
  { apply (f_equal length) in Hvs. by rewrite !length_map in Hvs. }
  unfold track, windows_of. simpl. rewrite Hvt, Hth, Hlen.
  destruct (det_gear d) as [|g gs]; simpl.
  { by rewrite Hvt. }
  destruct (default ∅ (violation_time st !! cam) !! worker_name cam i); simpl;
    destruct (Qle_bool _ _); simpl; rewrite ?map_app, Hvt, Hvs; done.
Qed.

Lemma loop_imwrite l : ∀ i st st' vs vs',
  violation_time st' = violation_time st →
  alert_threshold st' = alert_threshold st →
  map sans_screenshot vs' = map sans_screenshot vs →
  violation_time (for_enumerate (track cam (with_imwrite s outcomes)) i l (st', vs')).1
  = violation_time (for_enumerate (track cam s) i l (st, vs)).1
  ∧ map sans_screenshot
      (for_enumerate (track cam (with_imwrite s outcomes)) i l (st', vs')).2
    = map sans_screenshot (for_enumerate (track cam s) i l (st, vs)).2.
Proof.
  induction l as [|d l IH]; intros i st st' vs vs' Hvt Hth Hvs; [done |].
  cbn [for_enumerate].
  destruct (track_imwrite i d st st' vs vs' Hvt Hth Hvs) as (H1 & H2 & H3).
  destruct (track cam (with_imwrite s outcomes) i d (st', vs')) as [a1 a2].
  destruct (track cam s i d (st, vs)) as [b1 b2].
  by apply IH.
Qed.

End SafetyGearScreenshots.

Section SafetyGearScreenshotClaim.
Import SafetyGear.

(** C9. A screenshot that cannot be saved does not stop the pass: whatever
    [cv2.imwrite] does, the pass returns the same records, screenshot
    apart, leaves the same windows and adds what it returns to the
    history. But the [k]-th record of the pass is without a screenshot
    reference only when the [k]-th [cv2.imwrite] raises. When it does not
    raise the record carries the reference of the file, also when
    [cv2.imwrite] returned [False] and no file was written. *)
Theorem unsaved_screenshot_is_still_referenced (st : t) (cam : Z) (s : sight)
    (outcomes : nat → imwrite_outcome) :
  let calm := detect st cam s in
  let rough := detect st cam (with_imwrite s outcomes) in
  map sans_screenshot rough.2 = map sans_screenshot calm.2
  ∧ violation_time rough.1 = violation_time calm.1
  ∧ violation_history rough.1 = violation_history st ++ rough.2
  ∧ ∀ k r, rough.2 !! k = Some r →
      let reference :=
        "/static/violations/safety_gear/"
        +:+ screenshot_filename "safety_gear" cam (worker_id r)
              (sight_wall s (2 * k)) in
      (outcomes k = ImwriteRaises → screenshot r = None)
      ∧ (outcomes k = ImwriteTrue → screenshot r = Some reference)
      ∧ (outcomes k = ImwriteFalse →
         saved (outcomes k) = false ∧ screenshot r = Some reference).
Proof.
  simpl. split; [| split; [| split]].
  - unfold detect. simpl. destruct (hog st); [| done].
    by apply loop_imwrite.
  - unfold detect. simpl. destruct (hog st); [| done].
    by apply loop_imwrite.
  - apply detect_emitted.
  - intros k r Hk.
    destruct (detect_emitted cam (with_imwrite s outcomes) st) as [Hout _].
    rewrite Hout in Hk. destruct (hog st); [| done].
    apply emitted_from_lookup in Hk as (j & d & dur & _ & _ & ->).
    cbv zeta. cbn [screenshot worker_id violation_record with_imwrite
                     sight_imwrite sight_wall Nat.add].
    unfold _capture_violation_screenshot.
    split; [| split]; intros Ho; rewrite Ho; [done | done | by split].
Qed.

Lemma unsaved_screenshot_is_still_referenced_witness :
  let st := (run init 1 (map bareheaded [0; 1; 2]%Q)).1 in
  let s := with_imwrite (bareheaded 3) (λ _, ImwriteFalse) in
  ∃ r, (detect st 1 s).2 = [r]
       ∧ saved (sight_imwrite s 0) = false
       ∧ screenshot r
         = Some ("/static/violations/safety_gear/"
                 +:+ "safety_gear_1_worker_1_0_20240101_000000.jpg")
       ∧ violation_history (detect st 1 s).1 = [r].
Proof.
  pose proof (unsaved_screenshot_is_still_referenced
                (run init 1 (map bareheaded [0; 1; 2]%Q)).1 1
                (bareheaded 3) (λ _, ImwriteFalse)) as (_ & _ & Hhist & Hshot).
  cbv zeta in *.
  exists (violation_record 1 (with_imwrite (bareheaded 3) (λ _, ImwriteFalse))
            0 (worker_name 1 0) ["helmet"] (3 - 0)%Q).
  split; [by vm_compute |]. split; [done |]. split.
  - assert ((detect (run init 1 (map bareheaded [0; 1; 2]%Q)).1 1
               (with_imwrite (bareheaded 3) (λ _, ImwriteFalse))).2 !! 0
            = Some (violation_record 1
                      (with_imwrite (bareheaded 3) (λ _, ImwriteFalse))
                      0 (worker_name 1 0) ["helmet"] (3 - 0)%Q)) as Hk
      by (by vm_compute).
    destruct (Hshot 0 _ Hk) as (_ & _ & Hfalse).
    destruct Hfalse as [_ Href]; [done |].
    etrans; [exact Href | by vm_compute].
  - rewrite Hhist. by vm_compute.
Defined.

End SafetyGearScreenshotClaim.

Section SafetyGearRuns.
Import SafetyGear.

Context (cam : Z).

Lemma run_cons st s frames :
  (run st cam (s :: frames)).1 = (run (detect st cam s).1 cam frames).1.
Proof.
  cbn [run]. destruct (detect st cam s) as [st1 vs]. cbn [fst].
  by destruct (run st1 cam frames).
Qed.

Lemma run_snoc frames : ∀ st s,
  (run st cam (frames ++ [s])).1 = (detect (run st cam frames).1 cam s).1.
Proof.
  induction frames as [|s0 frames IH]; intros st s.
  - cbn [app run fst]. by destruct (detect st cam s).
  - rewrite <- app_comm_cons, !run_cons. apply IH.
Qed.

Lemma run_hog frames : ∀ st, hog (run st cam frames).1 = hog st.
Proof.
  induction frames as [|s frames IH]; intros st; [done |].
  rewrite run_cons, IH. apply detect_settings.
Qed.

Lemma run_threshold frames : ∀ st,
  alert_threshold (run st cam frames).1 = alert_threshold st.
Proof.
  induction frames as [|s frames IH]; intros st; [done |].
  rewrite run_cons, IH. apply detect_settings.
Qed.

(** A window stays as it is through frames that do not show its worker
    compliant. *)
Lemma run_window_kept i start frames : ∀ st,
  hog st = true →
  window st cam (worker_name cam i) = Some start →
  Forall (λ s, gear_seen s i ≠ Some []) frames →
  window (run st cam frames).1 cam (worker_name cam i) = Some start.
Proof.
  induction frames as [|s frames IH]; intros st Hh Hw Hall; [done |].
  apply Forall_cons in Hall as [Hs Hall].
  rewrite run_cons. apply IH; [| | done].
  - destruct (detect_settings cam s st) as (_ & -> & _). done.
  - rewrite detect_window, Hh, Hw.
    destruct (gear_seen s i) as [[|g gs]|]; done.
Qed.

End SafetyGearRuns.

Section SafetyGearWindows.
Import SafetyGear.

(** C2. A frame that shows worker [i] with nothing missing closes the
    window of the worker. When non-compliance follows in the next frame,
    at [t2], the window is opened again at [t2] and stays there while no
    frame shows the worker compliant; whatever window was open before,
    every record for the worker from then on carries a duration measured
    from [t2]. *)
Theorem compliance_restarts_timing (st : t) (cam : Z) (i : nat)
    (s1 s2 : sight) (later : list sight) (s3 : sight) (g : list string) :
  hog st = true →
  gear_seen s1 i = Some [] →
  gear_seen s2 i = Some g → g ≠ [] →
  Forall (λ s, gear_seen s i ≠ Some []) later →
  let wid := worker_name cam i in
  let st1 := (detect st cam s1).1 in
  let st2 := (run st cam (s1 :: s2 :: later)).1 in
  window st1 cam wid = None
  ∧ window st2 cam wid = Some (sight_time s2)
  ∧ (∀ r, r ∈ (detect st1 cam s2).2 → worker_id r = wid →
       duration r = py_round1 (sight_time s2 - sight_time s2))
  ∧ (∀ r, r ∈ (detect st2 cam s3).2 → worker_id r = wid →
       duration r = py_round1 (sight_time s3 - sight_time s2)
       ∧ (alert_threshold st <= sight_time s3 - sight_time s2)%Q).
Proof.
  intros Hh H1 H2 Hg Hlater wid st1 st2.
  assert (hog st1 = true) as Hh1.
  { unfold st1. destruct (detect_settings cam s1 st) as (_ & -> & _). done. }
  assert (window st1 cam wid = None) as Hw1.
  { unfold st1, wid. by rewrite detect_window, Hh, H1. }
  assert (window st2 cam wid = Some (sight_time s2)) as Hw2.
  { unfold st2. rewrite !run_cons. apply run_window_kept; [| | done].
    - destruct (detect_settings cam s2 (detect st cam s1).1) as (_ & -> & _).
      exact Hh1.
    - rewrite detect_window. fold st1. rewrite Hh1, H2.
      fold wid. rewrite Hw1. by destruct g. }
  split; [done |]. split; [done |]. split.
  - intros r (j & g' & _ & _ & _ & Hid & _ & _ & Hdur & _)%detect_reports Hr.
    rewrite Hid in Hr. apply worker_name_inj in Hr as ->.
    fold wid in Hdur. by rewrite Hw1 in Hdur.
  - intros r (j & g' & _ & _ & _ & Hid & _ & _ & Hdur & Hle)%detect_reports Hr.
    rewrite Hid in Hr. apply worker_name_inj in Hr as ->.
    fold wid in Hdur, Hle. rewrite Hw2 in Hdur, Hle. simpl in Hdur, Hle.
    split; [done |].
    unfold st2 in Hle. by rewrite run_threshold in Hle.
Qed.

Lemma compliance_restarts_timing_witness :
  let st := (detect init 1 (bareheaded 0)).1 in
  let s1 := equipped 1 in
  let s2 := bareheaded 2 in
  let later := [bareheaded 3; nobody 4] in
  let s3 := bareheaded 5 in
  let st2 := (run st 1 (s1 :: s2 :: later)).1 in
  window st 1 (worker_name 1 0) = Some 0%Q
  ∧ window (detect st 1 s1).1 1 (worker_name 1 0) = None
  ∧ window st2 1 (worker_name 1 0) = Some 2%Q
  ∧ ∃ r, (detect st2 1 s3).2 = [r]
         ∧ duration r = py_round1 (5 - 2)
         ∧ (alert_threshold st <= 5 - 2)%Q.
Proof.
  pose proof (compliance_restarts_timing
                (detect init 1 (bareheaded 0)).1 1 0
                (equipped 1) (bareheaded 2)
                [bareheaded 3; nobody 4]
                (bareheaded 5) ["helmet"]) as H.
  cbv zeta in *.
  destruct H as (Hw1 & Hw2 & _ & Hr).
  - reflexivity.
  - reflexivity.
  - reflexivity.
  - discriminate.
  - repeat constructor; by vm_compute.
  - split; [by vm_compute |]. split; [exact Hw1 |]. split; [exact Hw2 |].
    eexists. split; [by vm_compute |].
    apply Hr; by vm_compute; try apply list_elem_of_here.
Defined.

(** C6, as the code has it. The window of worker [i] follows the frames in
    which the worker is seen: a frame that shows it non-compliant opens the
    window, or keeps the one open; a frame that shows it compliant removes
    it; a frame in which it is not seen leaves it as it is. So a window
    found open after a run that started without one was opened by a frame
    that showed the worker non-compliant, at the time of that frame, and no
    frame since has shown the worker compliant. *)
Theorem window_follows_seen_frames (st : t) (cam : Z) (i : nat) :
  hog st = true →
  let wid := worker_name cam i in
  (∀ s g, gear_seen s i = Some g → g ≠ [] →
     window (detect st cam s).1 cam wid
     = Some (default (sight_time s) (window st cam wid)))
  ∧ (∀ s, gear_seen s i = Some [] → window (detect st cam s).1 cam wid = None)
  ∧ (∀ s, gear_seen s i = None →
       window (detect st cam s).1 cam wid = window st cam wid)
  ∧ (∀ frames start,
       window st cam wid = None →
       window (run st cam frames).1 cam wid = Some start →
       ∃ before s after g,
         frames = before ++ s :: after
         ∧ window (run st cam before).1 cam wid = None
         ∧ gear_seen s i = Some g ∧ g ≠ [] ∧ sight_time s = start
         ∧ Forall (λ s', gear_seen s' i ≠ Some []) after).
Proof.
  intros Hh wid. split; [| split; [| split]].
  - intros s g Hs Hg. unfold wid. rewrite detect_window, Hh, Hs. by destruct g.
  - intros s Hs. unfold wid. by rewrite detect_window, Hh, Hs.
  - intros s Hs. unfold wid. by rewrite detect_window, Hh, Hs.
  - intros frames. induction frames as [|s frames IH] using rev_ind;
      intros start Hnone Hopen.
    { simpl in Hopen. congruence. }
    rewrite run_snoc in Hopen. unfold wid in Hopen.
    rewrite detect_window, run_hog, Hh in Hopen.
    destruct (gear_seen s i) as [[|g gs]|] eqn:Hs; simpl in Hopen; [done | |].
    + destruct (window (run st cam frames).1 cam (worker_name cam i))
        as [t0|] eqn:Hw; simpl in Hopen; injection Hopen as <-.
      * destruct (IH t0 Hnone Hw) as (before & s0 & after & g0 & -> & H1 & H2 & H3 & H4 & H5).
        exists before, s0, (after ++ [s]), g0.
        rewrite <- app_assoc. repeat split; try done.
        apply Forall_app. split; [done |].
        apply Forall_singleton. by rewrite Hs.
      * exists frames, s, [], (g :: gs). repeat split; done.
    + destruct (IH start Hnone Hopen) as (before & s0 & after & g0 & -> & H1 & H2 & H3 & H4 & H5).
      exists before, s0, (after ++ [s]), g0.
      rewrite <- app_assoc. repeat split; try done.
      apply Forall_app. split; [done |].
      apply Forall_singleton. by rewrite Hs.
Qed.

Lemma window_follows_seen_frames_witness :
  let frames := [bareheaded 0; nobody 1; bareheaded 2] in
  window (run init 1 frames).1 1 (worker_name 1 0) = Some 0%Q
  ∧ ∃ before s after g,
      frames = before ++ s :: after
      ∧ window (run init 1 before).1 1 (worker_name 1 0) = None
      ∧ gear_seen s 0 = Some g ∧ g ≠ [] ∧ sight_time s = 0%Q
      ∧ Forall (λ s', gear_seen s' 0 ≠ Some []) after.
Proof.
  assert (window
            (run init 1 [bareheaded 0; nobody 1;
                         bareheaded 2]).1 1 (worker_name 1 0)
          = Some 0%Q) as Hopen by (by vm_compute).
  split; [exact Hopen |].
  exact (proj2 (proj2 (proj2
           (window_follows_seen_frames init 1 0 eq_refl)))
           _ 0%Q eq_refl Hopen).
Defined.

(** C6, where the claim fails: a frame in which the worker is not detected
    leaves the window open, and the next record is timed from before it. *)
Lemma window_outlives_unseen_frame :
  let frames := [bareheaded 0; nobody 1; nobody 2;
                 bareheaded 3] in
  gear_seen (nobody 1) 0 = None
  ∧ window (run init 1 (take 2 frames)).1 1 (worker_name 1 0) = Some 0%Q
  ∧ map (map (λ r, (worker_id r, Qred (duration r)))) (run init 1 frames).2
    = [ []; []; []; [("worker_1_0", 3%Q)] ].
Proof. by vm_compute. Qed.

End SafetyGearWindows.

(** ** The proximity tracker *)

Section ProximityFacts.
Import Proximity.

Context (cam : Z) (s : sight).

Lemma cooldowns_of_set_eq st cs : cooldowns_of (set_cooldowns st cam cs) cam = cs.
Proof. unfold cooldowns_of, set_cooldowns. simpl. by rewrite lookup_insert_eq. Qed.

Lemma cooldowns_of_push st r c :
  cooldowns_of (push_history st r) c = cooldowns_of st c.
Proof. reflexivity. Qed.

Lemma check_pair_settings i c j m st al :
  proximity_threshold (check_pair cam s i c j m (st, al)).1 = proximity_threshold st
  ∧ alert_cooldown (check_pair cam s i c j m (st, al)).1 = alert_cooldown st.
Proof.
  unfold check_pair.
  destruct (closer_than _ _); [| done]. simpl.
  destruct (Qle_bool _ _); done.
Qed.

Lemma check_pair_entry_other i c j m st al key :
  key ≠ pair_key cam i j →
  cooldowns_of (check_pair cam s i c j m (st, al)).1 cam !! key
  = cooldowns_of st cam !! key.
Proof.
  intros Hne. unfold check_pair.
  destruct (closer_than _ _); [| done]. simpl.
  destruct (Qle_bool _ _); simpl;
    rewrite ?cooldowns_of_set_eq, ?lookup_insert_ne; done.
Qed.

Lemma check_pair_entry_same i b j m st al :
  cooldowns_of (check_pair cam s i (center b) j m (st, al)).1 cam !! pair_key cam i j
  = match alert_due st cam s i b j m with
    | Some _ => Some (sight_time s)
    | None => cooldowns_of st cam !! pair_key cam i j
    end.
Proof.
  unfold check_pair, alert_due, last_alert.
  destruct (closer_than _ _); [| done]. simpl.
  destruct (Qle_bool _ _); simpl;
    rewrite ?cooldowns_of_set_eq, ?lookup_insert_eq; done.
Qed.

Lemma check_pair_out i b j m st al :
  let new := option_list (alert_record cam s (length al) i j
                            <$> alert_due st cam s i b j m) in
  (check_pair cam s i (center b) j m (st, al)).2 = al ++ new
  ∧ violation_history (check_pair cam s i (center b) j m (st, al)).1
    = violation_history st ++ new.
Proof.
  unfold check_pair, alert_due, last_alert.
  destruct (closer_than _ _); simpl; [| by rewrite !app_nil_r].
  destruct (Qle_bool _ _); simpl; by rewrite ?app_nil_r.
Qed.

Lemma alert_due_ext st st' i b j m :
  proximity_threshold st' = proximity_threshold st →
  alert_cooldown st' = alert_cooldown st →
  cooldowns_of st' cam !! pair_key cam i j = cooldowns_of st cam !! pair_key cam i j →
  alert_due st' cam s i b j m = alert_due st cam s i b j m.
Proof. intros H1 H2 H3. unfold alert_due, last_alert. by rewrite H1, H2, H3. Qed.

Lemma alerts_of_worker_ext st st' i b ms : ∀ j k,
  proximity_threshold st' = proximity_threshold st →
  alert_cooldown st' = alert_cooldown st →
  (∀ n, j ≤ n → cooldowns_of st' cam !! pair_key cam i n
                = cooldowns_of st cam !! pair_key cam i n) →
  alerts_of_worker st' cam s i b j ms k = alerts_of_worker st cam s i b j ms k.
Proof.
  induction ms as [|m ms IH]; intros j k H1 H2 H3; [done |].
  simpl. rewrite (alert_due_ext st st') by auto.
  destruct (alert_due st cam s i b j m); rewrite IH; auto with lia.
Qed.

(** *** The inner loop *)

Lemma row_settings i c ms : ∀ j st al,
  proximity_threshold (for_enumerate (check_pair cam s i c) j ms (st, al)).1
  = proximity_threshold st
  ∧ alert_cooldown (for_enumerate (check_pair cam s i c) j ms (st, al)).1
    = alert_cooldown st.
Proof.
  induction ms as [|m ms IH]; intros j st al; [done |].
  cbn [for_enumerate].
  destruct (check_pair_settings i c j m st al) as [H1 H2].
  destruct (check_pair cam s i c j m (st, al)) as [st1 al1].
  destruct (IH (S j) st1 al1) as [H3 H4]. simpl in *. split; congruence.
Qed.

Lemma row_entry_other i c ms : ∀ j st al key,
  (∀ n, n < length ms → key ≠ pair_key cam i (j + n)) →
  cooldowns_of (for_enumerate (check_pair cam s i c) j ms (st, al)).1 cam !! key
  = cooldowns_of st cam !! key.
Proof.
  induction ms as [|m ms IH]; intros j st al key Hne; [done |].
  cbn [for_enumerate].
  pose proof (check_pair_entry_other i c j m st al key) as H.
  destruct (check_pair cam s i c j m (st, al)) as [st1 al1].
  rewrite IH.
  - apply H. specialize (Hne 0). rewrite Nat.add_0_r in Hne.
    apply Hne. simpl. lia.
  - intros n Hn. replace (S j + n) with (j + S n) by lia.
    apply Hne. simpl. lia.
Qed.

Lemma row_entry_seen i b ms : ∀ j st al n m,
  ms !! n = Some m →
  cooldowns_of (for_enumerate (check_pair cam s i (center b)) j ms (st, al)).1 cam
    !! pair_key cam i (j + n)
  = match alert_due st cam s i b (j + n) m with
    | Some _ => Some (sight_time s)
    | None => cooldowns_of st cam !! pair_key cam i (j + n)
    end.
Proof.
  induction ms as [|m0 ms IH]; intros j st al n m Hn; [done |].
  cbn [for_enumerate].
  pose proof (check_pair_entry_same i b j m0 st al) as Hsame.
  pose proof (check_pair_entry_other i (center b) j m0 st al) as Hother.
  pose proof (check_pair_settings i (center b) j m0 st al) as [Hs1 Hs2].
  destruct (check_pair cam s i (center b) j m0 (st, al)) as [st1 al1].
  cbn [fst] in *.
  destruct n as [|n]; simpl in Hn.
  - injection Hn as ->. rewrite Nat.add_0_r.
    rewrite row_entry_other; [done |].
    intros n _ Heq. apply pair_key_inj in Heq. lia.
  - replace (j + S n) with (S j + n) by lia.
    rewrite (IH (S j) st1 al1 n m Hn).
    assert (pair_key cam i (S j + n) ≠ pair_key cam i j) as Hne.
    { intros Heq. apply pair_key_inj in Heq. lia. }
    rewrite (alert_due_ext st st1) by auto. by rewrite Hother.
Qed.

Lemma row_out i b ms : ∀ j st al,
  let res := for_enumerate (check_pair cam s i (center b)) j ms (st, al) in
  let new := alerts_of_worker st cam s i b j ms (length al) in
  res.2 = al ++ new ∧ violation_history res.1 = violation_history st ++ new.
Proof.
  induction ms as [|m ms IH]; intros j st al; cbn [for_enumerate alerts_of_worker].
  { simpl. by rewrite !app_nil_r. }
  pose proof (check_pair_out i b j m st al) as [H1 H2].
  pose proof (check_pair_entry_other i (center b) j m st al) as Hother.
  pose proof (check_pair_settings i (center b) j m st al) as [Hs1 Hs2].
  destruct (check_pair cam s i (center b) j m (st, al)) as [st1 al1].
  cbn [fst snd] in *.
  destruct (IH (S j) st1 al1) as [H3 H4]. cbn zeta in H3, H4.
  assert (∀ k, alerts_of_worker st1 cam s i b (S j) ms k
               = alerts_of_worker st cam s i b (S j) ms k) as Hext.
  { intros k. apply alerts_of_worker_ext; [done | done |].
    intros n Hn. apply Hother. intros Heq. apply pair_key_inj in Heq. lia. }
  cbn zeta. rewrite H3, H4, Hext, H1, H2.
  destruct (alert_due st cam s i b j m) as [d2|]; simpl.
  - rewrite length_app. simpl. rewrite Nat.add_1_r, <- !app_assoc. done.
  - by rewrite !app_nil_r.
Qed.

End ProximityFacts.

Section ProximityPass.
Import Proximity.

Context (cam : Z) (s : sight).

(** *** The outer loop *)

Lemma alerts_from_ext st st' ws : ∀ i k,
  proximity_threshold st' = proximity_threshold st →
  alert_cooldown st' = alert_cooldown st →
  (∀ a n, i ≤ a → cooldowns_of st' cam !! pair_key cam a n
                  = cooldowns_of st cam !! pair_key cam a n) →
  alerts_from st' cam s i ws k = alerts_from st cam s i ws k.
Proof.
  induction ws as [|b ws IH]; intros i k H1 H2 H3; [done |].
  cbn [alerts_from]. cbn zeta.
  rewrite (alerts_of_worker_ext cam s st st') by auto.
  rewrite IH; auto with lia.
Qed.

Lemma pass_settings ws : ∀ i st al,
  proximity_threshold (for_enumerate (check_worker cam s) i ws (st, al)).1
  = proximity_threshold st
  ∧ alert_cooldown (for_enumerate (check_worker cam s) i ws (st, al)).1
    = alert_cooldown st.
Proof.
  induction ws as [|b ws IH]; intros i st al; [done |].
  cbn [for_enumerate]. unfold check_worker at 2 4.
  destruct (row_settings cam s i (center b) (sight_machinery s) 0 st al) as [H1 H2].
  destruct (for_enumerate (check_pair cam s i (center b)) 0 (sight_machinery s)
              (st, al)) as [st1 al1].
  destruct (IH (S i) st1 al1) as [H3 H4]. simpl in *. split; congruence.
Qed.

Lemma pass_entry_other ws : ∀ i st al key,
  (∀ a n, a < length ws → n < length (sight_machinery s) →
          key ≠ pair_key cam (i + a) n) →
  cooldowns_of (for_enumerate (check_worker cam s) i ws (st, al)).1 cam !! key
  = cooldowns_of st cam !! key.
Proof.
  induction ws as [|b ws IH]; intros i st al key Hne; [done |].
  cbn [for_enumerate]. unfold check_worker at 2.
  pose proof (row_entry_other cam s i (center b) (sight_machinery s) 0 st al key)
    as Hrow.
  destruct (for_enumerate (check_pair cam s i (center b)) 0 (sight_machinery s)
              (st, al)) as [st1 al1].
  rewrite IH.
  - apply Hrow. intros n Hn. specialize (Hne 0 n).
    rewrite Nat.add_0_r in Hne. apply Hne; simpl; lia.
  - intros a n Ha Hn. replace (S i + a) with (i + S a) by lia.
    apply Hne; simpl; lia.
Qed.

Lemma pass_entry_seen ws : ∀ i st al a b n m,
  ws !! a = Some b → sight_machinery s !! n = Some m →
  cooldowns_of (for_enumerate (check_worker cam s) i ws (st, al)).1 cam
    !! pair_key cam (i + a) n
  = match alert_due st cam s (i + a) b n m with
    | Some _ => Some (sight_time s)
    | None => cooldowns_of st cam !! pair_key cam (i + a) n
    end.
Proof.
  induction ws as [|b0 ws IH]; intros i st al a b n m Ha Hn; [done |].
  cbn [for_enumerate]. unfold check_worker at 2.
  pose proof (row_entry_seen cam s i b0 (sight_machinery s) 0 st al n m Hn) as Hseen.
  pose proof (row_entry_other cam s i (center b0) (sight_machinery s) 0 st al)
    as Hother.
  pose proof (row_settings cam s i (center b0) (sight_machinery s) 0 st al)
    as [Hs1 Hs2].
  destruct (for_enumerate (check_pair cam s i (center b0)) 0 (sight_machinery s)
              (st, al)) as [st1 al1].
  cbn [fst] in *.
  destruct a as [|a]; simpl in Ha.
  - injection Ha as ->. rewrite Nat.add_0_r.
    rewrite pass_entry_other; [done |].
    intros a n' _ _ Heq. apply pair_key_inj in Heq. lia.
  - replace (i + S a) with (S i + a) by lia.
    rewrite (IH (S i) st1 al1 a b n m Ha Hn).
    assert (cooldowns_of st1 cam !! pair_key cam (S i + a) n
            = cooldowns_of st cam !! pair_key cam (S i + a) n) as Hsame.
    { apply Hother. intros n' _ Heq. apply pair_key_inj in Heq. lia. }
    rewrite (alert_due_ext cam s st st1) by auto. by rewrite Hsame.
Qed.

Lemma pass_out ws : ∀ i st al,
  let res := for_enumerate (check_worker cam s) i ws (st, al) in
  let new := alerts_from st cam s i ws (length al) in
  res.2 = al ++ new ∧ violation_history res.1 = violation_history st ++ new.
Proof.
  induction ws as [|b ws IH]; intros i st al; cbn [for_enumerate alerts_from].
  { simpl. by rewrite !app_nil_r. }
  unfold check_worker at 2 4.
  pose proof (row_out cam s i b (sight_machinery s) 0 st al) as [H1 H2].
  pose proof (row_entry_other cam s i (center b) (sight_machinery s) 0 st al)
    as Hother.
  pose proof (row_settings cam s i (center b) (sight_machinery s) 0 st al)
    as [Hs1 Hs2].
  destruct (for_enumerate (check_pair cam s i (center b)) 0 (sight_machinery s)
              (st, al)) as [st1 al1].
  cbn [fst snd] in *. cbn zeta in *.
  destruct (IH (S i) st1 al1) as [H3 H4].
  assert (∀ k, alerts_from st1 cam s (S i) ws k = alerts_from st cam s (S i) ws k)
    as Hext.
  { intros k. apply alerts_from_ext; [done | done |].
    intros a n Ha. apply Hother. intros n' _ Heq. apply pair_key_inj in Heq. lia. }
  rewrite H3, H4, Hext, H1, H2, length_app, <- !app_assoc. done.
Qed.

(** *** A pass *)

Lemma alerts_of_pass st :
  (detect st cam s).2 = alerts_from st cam s 0 (valid_boxes (sight_hits s)) 0
  ∧ violation_history (detect st cam s).1
    = violation_history st ++ (detect st cam s).2.
Proof.
  unfold detect.
  destruct (pass_out (valid_boxes (sight_hits s)) 0
              (set_machinery st cam (sight_machinery s)) []) as [H1 H2].
  cbn zeta in *. simpl in H1, H2. rewrite H2, H1.
  split; [| done]. by apply alerts_from_ext.
Qed.

Lemma settings_of_pass st :
  proximity_threshold (detect st cam s).1 = proximity_threshold st
  ∧ alert_cooldown (detect st cam s).1 = alert_cooldown st.
Proof.
  unfold detect.
  apply (pass_settings _ 0 (set_machinery st cam (sight_machinery s)) []).
Qed.

(** The cooldown entry of a pair the pass has looked at. *)
Lemma entry_of_pass st i b j m :
  valid_boxes (sight_hits s) !! i = Some b → sight_machinery s !! j = Some m →
  cooldowns_of (detect st cam s).1 cam !! pair_key cam i j
  = match alert_due st cam s i b j m with
    | Some _ => Some (sight_time s)
    | None => cooldowns_of st cam !! pair_key cam i j
    end.
Proof.
  intros Hi Hj. unfold detect.
  rewrite (pass_entry_seen _ 0 _ [] i b j m Hi Hj). simpl.
  by rewrite (alert_due_ext cam s st (set_machinery st cam (sight_machinery s))).
Qed.

End ProximityPass.

Section ProximityAlerts.
Import Proximity.

Context (cam : Z) (s : sight).

Lemma machine_name_inj j j' : machine_name cam j = machine_name cam j' → j = j'.
Proof.
  unfold machine_name. intros H.
  do 3 apply (inj (String.append _)) in H.
  by apply (inj pretty) in H.
Qed.

Lemma row_for_other st i' b ms : ∀ j0 k i j,
  i ≠ i' ∨ (∀ n, n < length ms → j ≠ j0 + n) →
  alerts_for cam i j (alerts_of_worker st cam s i' b j0 ms k) = [].
Proof.
  induction ms as [|m ms IH]; intros j0 k i j Hne; [done |].
  assert (i ≠ i' ∨ (∀ n, n < length ms → j ≠ S j0 + n)) as Hrest.
  { destruct Hne as [Hne|Hne]; [by left | right].
    intros n Hn. replace (S j0 + n) with (j0 + S n) by lia.
    apply Hne. simpl. lia. }
  cbn [alerts_of_worker]. destruct (alert_due st cam s i' b j0 m); [| by apply IH].
  unfold alerts_for. rewrite filter_cons_False; [by apply IH |].
  simpl. intros [Hw Hm].
  apply worker_name_inj in Hw. apply machine_name_inj in Hm.
  destruct Hne as [Hne|Hne]; [done |].
  specialize (Hne 0). simpl in Hne. lia.
Qed.

Lemma row_for st i b ms : ∀ j0 k n m,
  ms !! n = Some m →
  ∃ k', alerts_for cam i (j0 + n) (alerts_of_worker st cam s i b j0 ms k)
        = option_list (alert_record cam s k' i (j0 + n)
                         <$> alert_due st cam s i b (j0 + n) m).
Proof.
  induction ms as [|m0 ms IH]; intros j0 k n m Hn; [done |].
  destruct n as [|n]; simpl in Hn.
  - injection Hn as ->. rewrite Nat.add_0_r. cbn [alerts_of_worker].
    assert (∀ k0, alerts_for cam i j0 (alerts_of_worker st cam s i b (S j0) ms k0)
                  = []) as Hrest.
    { intros k0. apply row_for_other. right. intros n _. lia. }
    destruct (alert_due st cam s i b j0 m) as [d2|]; simpl.
    + exists k. unfold alerts_for. rewrite filter_cons_True by done.
      fold (alerts_for cam i j0 (alerts_of_worker st cam s i b (S j0) ms (S k))).
      by rewrite Hrest.
    + exists k. apply Hrest.
  - replace (j0 + S n) with (S j0 + n) by lia. cbn [alerts_of_worker].
    destruct (alert_due st cam s i b j0 m0) as [d2|].
    + destruct (IH (S j0) (S k) n m Hn) as [k' Hk']. exists k'.
      unfold alerts_for. rewrite filter_cons_False; [done |].
      simpl. intros [_ Hm]. apply machine_name_inj in Hm. lia.
    + apply IH, Hn.
Qed.

Lemma alerts_from_for_other st ws : ∀ i0 k i j,
  (∀ a, a < length ws → i ≠ i0 + a) →
  alerts_for cam i j (alerts_from st cam s i0 ws k) = [].
Proof.
  induction ws as [|b ws IH]; intros i0 k i j Hne; [done |].
  cbn [alerts_from]. cbn zeta. unfold alerts_for. rewrite filter_app.
  fold (alerts_for cam i j (alerts_of_worker st cam s i0 b 0 (sight_machinery s) k)).
  rewrite row_for_other.
  - simpl. apply IH. intros a Ha.
    replace (S i0 + a) with (i0 + S a) by lia. apply Hne. simpl. lia.
  - left. specialize (Hne 0). rewrite Nat.add_0_r in Hne. apply Hne. simpl. lia.
Qed.

(** The alerts of a pass for one pair: one when the pair is due, none
    otherwise. *)
Lemma alerts_from_for st ws : ∀ i0 k a b n m,
  ws !! a = Some b → sight_machinery s !! n = Some m →
  ∃ k', alerts_for cam (i0 + a) n (alerts_from st cam s i0 ws k)
        = option_list (alert_record cam s k' (i0 + a) n
                         <$> alert_due st cam s (i0 + a) b n m).
Proof.
  induction ws as [|b0 ws IH]; intros i0 k a b n m Ha Hn; [done |].
  cbn [alerts_from]. cbn zeta. unfold alerts_for. rewrite filter_app.
  destruct a as [|a]; simpl in Ha.
  - injection Ha as ->. rewrite Nat.add_0_r.
    destruct (row_for st i0 b (sight_machinery s) 0 k n m Hn) as [k' Hk'].
    exists k'. unfold alerts_for in Hk'. simpl in Hk'. rewrite Hk'.
    pose proof (alerts_from_for_other st ws (S i0)
                  (k + length (alerts_of_worker st cam s i0 b 0 (sight_machinery s) k))
                  i0 n) as Hrest.
    unfold alerts_for in Hrest. rewrite Hrest; [by rewrite app_nil_r |].
    intros a _. lia.
  - replace (i0 + S a) with (S i0 + a) by lia.
    pose proof (row_for_other st i0 b0 (sight_machinery s) 0 k (S i0 + a) n) as Hrow.
    unfold alerts_for in Hrow. rewrite Hrow by (left; lia). cbn [app].
    apply IH; done.
Qed.

Lemma alert_due_spec st i b j m :
  let near := closer_than (dist_sq (center b) (center m)) (proximity_threshold st) in
  let elapsed := (sight_time s - last_alert st cam (pair_key cam i j))%Q in
  (near = true ∧ (alert_cooldown st <= elapsed)%Q →
     alert_due st cam s i b j m = Some (dist_sq (center b) (center m)))
  ∧ (¬ (near = true ∧ (alert_cooldown st <= elapsed)%Q) →
     alert_due st cam s i b j m = None).
Proof.
  simpl. unfold alert_due. split.
  - intros [-> Hle%Qle_bool_iff]. by rewrite Hle.
  - intros Hnot. destruct (closer_than _ _); [| done]. simpl.
    destruct (Qle_bool _ _) eqn:Hle; [| done].
    apply Qle_bool_iff in Hle. by destruct Hnot.
Qed.

(** *** The order of the alerts *)

Lemma row_sorted st i b ms : ∀ j0 k,
  ∃ js, StronglySorted lt js ∧ Forall (le j0) js
    ∧ map (λ r, (worker_id r, machine_id r)) (alerts_of_worker st cam s i b j0 ms k)
      = map (λ j, (worker_name cam i, machine_name cam j)) js.
Proof.
  induction ms as [|m ms IH]; intros j0 k.
  { exists []. repeat split; constructor. }
  cbn [alerts_of_worker]. destruct (alert_due st cam s i b j0 m) as [d2|].
  - destruct (IH (S j0) (S k)) as (js & Hsorted & Hge & Hmap).
    exists (j0 :: js). split; [| split].
    + constructor; [done |]. eapply Forall_impl; [exact Hge |]. simpl. lia.
    + constructor; [lia |]. eapply Forall_impl; [exact Hge |]. simpl. lia.
    + simpl. by rewrite Hmap.
  - destruct (IH (S j0) k) as (js & Hsorted & Hge & Hmap).
    exists js. split; [done |]. split; [| done].
    eapply Forall_impl; [exact Hge |]. simpl. lia.
Qed.

Lemma alerts_from_sorted st ws : ∀ i0 k,
  ∃ ps, StronglySorted pair_lt ps ∧ Forall (λ p, i0 ≤ p.1) ps
    ∧ map (λ r, (worker_id r, machine_id r)) (alerts_from st cam s i0 ws k)
      = map (λ p, (worker_name cam p.1, machine_name cam p.2)) ps.
Proof.
  induction ws as [|b ws IH]; intros i0 k.
  { exists []. repeat split; constructor. }
  cbn [alerts_from]. cbn zeta.
  destruct (row_sorted st i0 b (sight_machinery s) 0 k) as (js & Hjs & _ & Hrow).
  destruct (IH (S i0)
              (k + length (alerts_of_worker st cam s i0 b 0 (sight_machinery s) k)))
    as (ps & Hps & Hge & Hrest).
  exists (map (pair i0) js ++ ps). split; [| split].
  - apply StronglySorted_app_2; [| | done].
    + intros p q (j & -> & _)%list_elem_of_fmap Hq.
      rewrite Forall_forall in Hge. apply Hge in Hq.
      left. simpl. lia.
    + apply (StronglySorted_fmap _ lt); [| done].
      intros x y Hxy. right. simpl. done.
  - apply Forall_app. split.
    + apply Forall_fmap. apply Forall_true. simpl. lia.
    + eapply Forall_impl; [exact Hge |]. simpl. lia.
  - rewrite !map_app, Hrow, Hrest. f_equal. by rewrite map_map.
Qed.

End ProximityAlerts.

Section ProximityClaims.
Import Proximity.

Lemma alerts_of_worker_gist cam st st' s s' i b ms :
  proximity_threshold st' = proximity_threshold st →
  alert_cooldown st' = alert_cooldown st →
  cooldowns_of st' cam = cooldowns_of st cam →
  sight_time s' = sight_time s →
  ∀ j k k',
    map gist (alerts_of_worker st' cam s' i b j ms k')
    = map gist (alerts_of_worker st cam s i b j ms k).
Proof.
  intros H1 H2 H3 H4.
  induction ms as [|m ms IH]; intros j k k'; [done |].
  cbn [alerts_of_worker].
  assert (alert_due st' cam s' i b j m = alert_due st cam s i b j m) as ->.
  { unfold alert_due, last_alert. by rewrite H1, H2, H3, H4. }
  destruct (alert_due st cam s i b j m); [| apply IH].
  simpl. f_equal. apply IH.
Qed.

Lemma alerts_from_gist cam st st' s s' ws :
  proximity_threshold st' = proximity_threshold st →
  alert_cooldown st' = alert_cooldown st →
  cooldowns_of st' cam = cooldowns_of st cam →
  sight_time s' = sight_time s →
  sight_machinery s' = sight_machinery s →
  ∀ i k k',
    map gist (alerts_from st' cam s' i ws k') = map gist (alerts_from st cam s i ws k).
Proof.
  intros H1 H2 H3 H4 H5.
  induction ws as [|b ws IH]; intros i k k'; [done |].
  cbn [alerts_from]. cbn zeta. rewrite !map_app, H5. f_equal.
  - by apply alerts_of_worker_gist.
  - apply IH.
Qed.

(** C3, as the code has it. Proximity alerts are rate-limited per pair. In
    a pass that sees worker [i] and machine [j], one alert is returned for
    the pair when the two are closer than the threshold and at least
    [alert_cooldown] has passed since the last alert recorded for the
    pair's key (0 when none is recorded), and then the key's entry becomes
    the time of the pass; otherwise no alert is returned for the pair and
    the entry stays as it is. Hence, for two passes that both see the pair
    close, the first of which comes at least [alert_cooldown] after the
    last alert of the pair: one alert in all when the passes are less than
    [alert_cooldown] apart, two when they are at least that far apart. *)
Theorem cooldown_deduplicates (st : t) (cam : Z) (i j : nat) :
  (∀ s b m,
     valid_boxes (sight_hits s) !! i = Some b → sight_machinery s !! j = Some m →
     let key := pair_key cam i j in
     let near :=
       closer_than (dist_sq (center b) (center m)) (proximity_threshold st) in
     let elapsed := (sight_time s - last_alert st cam key)%Q in
     (near = true ∧ (alert_cooldown st <= elapsed)%Q →
        length (alerts_for cam i j (detect st cam s).2) = 1
        ∧ cooldowns_of (detect st cam s).1 cam !! key = Some (sight_time s))
     ∧ (¬ (near = true ∧ (alert_cooldown st <= elapsed)%Q) →
        alerts_for cam i j (detect st cam s).2 = []
        ∧ cooldowns_of (detect st cam s).1 cam !! key = cooldowns_of st cam !! key))
  ∧ (∀ s1 s2 b1 m1 b2 m2,
       valid_boxes (sight_hits s1) !! i = Some b1 →
       sight_machinery s1 !! j = Some m1 →
       valid_boxes (sight_hits s2) !! i = Some b2 →
       sight_machinery s2 !! j = Some m2 →
       closer_than (dist_sq (center b1) (center m1)) (proximity_threshold st) = true →
       closer_than (dist_sq (center b2) (center m2)) (proximity_threshold st) = true →
       (alert_cooldown st <= sight_time s1 - last_alert st cam (pair_key cam i j))%Q →
       let first := detect st cam s1 in
       let second := detect first.1 cam s2 in
       ((sight_time s2 - sight_time s1 < alert_cooldown st)%Q →
          length (alerts_for cam i j (first.2 ++ second.2)) = 1)
       ∧ ((alert_cooldown st <= sight_time s2 - sight_time s1)%Q →
          length (alerts_for cam i j (first.2 ++ second.2)) = 2)).
Proof.
  assert (∀ st s b m,
     valid_boxes (sight_hits s) !! i = Some b → sight_machinery s !! j = Some m →
     let key := pair_key cam i j in
     let near :=
       closer_than (dist_sq (center b) (center m)) (proximity_threshold st) in
     let elapsed := (sight_time s - last_alert st cam key)%Q in
     (near = true ∧ (alert_cooldown st <= elapsed)%Q →
        length (alerts_for cam i j (detect st cam s).2) = 1
        ∧ cooldowns_of (detect st cam s).1 cam !! key = Some (sight_time s))
     ∧ (¬ (near = true ∧ (alert_cooldown st <= elapsed)%Q) →
        alerts_for cam i j (detect st cam s).2 = []
        ∧ cooldowns_of (detect st cam s).1 cam !! key = cooldowns_of st cam !! key))
    as Hpass.
  { clear st. intros st s b m Hb Hm key near elapsed.
    subst key near elapsed.
    destruct (alerts_of_pass cam s st) as [Hout _].
    destruct (alerts_from_for cam s st _ 0 0 i b j m Hb Hm) as [k' Hk'].
    simpl in Hk'.
    pose proof (entry_of_pass cam s st i b j m Hb Hm) as Hentry.
    destruct (alert_due_spec cam s st i b j m) as [Hyes Hno].
    split; intros Hc.
    - rewrite Hout, Hk', Hentry, (Hyes Hc). done.
    - rewrite Hout, Hk', Hentry, (Hno Hc). done. }
  split; [apply Hpass |].
  intros s1 s2 b1 m1 b2 m2 Hb1 Hm1 Hb2 Hm2 Hn1 Hn2 Hfirst first second.
  destruct (Hpass st s1 b1 m1 Hb1 Hm1) as [[Hone Hentry] _]; [done |].
  fold first in Hone, Hentry.
  destruct (settings_of_pass cam s1 st) as [Hth Hcd]. fold first in Hth, Hcd.
  assert (last_alert first.1 cam (pair_key cam i j) = sight_time s1) as Hlast.
  { unfold last_alert. by rewrite Hentry. }
  destruct (Hpass first.1 s2 b2 m2 Hb2 Hm2) as [Hyes Hno].
  fold second in Hyes, Hno. rewrite Hth, Hcd, Hlast in Hyes, Hno.
  unfold alerts_for in *. rewrite filter_app, length_app, Hone.
  split; intros Hgap.
  - destruct Hno as [-> _]; [| done].
    intros [_ Hle]. by apply Qlt_not_le in Hgap.
  - destruct Hyes as [-> _]; done.
Qed.

Lemma cooldown_deduplicates_witness :
  let st1 := (detect init 1 (close_pair 1000)).1 in
  length (alerts_for 1 0 0
            ((detect init 1 (close_pair 1000)).2
             ++ (detect st1 1 (close_pair 1003)).2)) = 1
  ∧ length (alerts_for 1 0 0
              ((detect init 1 (close_pair 1000)).2
               ++ (detect st1 1 (close_pair 1006)).2)) = 2.
Proof.
  pose proof (proj2 (cooldown_deduplicates init 1 0 0)) as H.
  split.
  - apply (H (close_pair 1000) (close_pair 1003)
             (100, 100, 40, 80)%Z (120, 100, 100, 80)%Z
             (100, 100, 40, 80)%Z (120, 100, 100, 80)%Z);
      try reflexivity; by vm_compute.
  - apply (H (close_pair 1000) (close_pair 1006)
             (100, 100, 40, 80)%Z (120, 100, 100, 80)%Z
             (100, 100, 40, 80)%Z (120, 100, 100, 80)%Z);
      try reflexivity; by vm_compute.
Defined.

(** C3, where the claim fails: the cooldown runs from the last alert of the
    pair, not from the first of two detections. After an alert at time
    1000, detections of the close pair at 1001 and 1003 give no alert
    instead of one, and detections at 1001 and 1006 give one instead of
    two. On a tracker that has never alerted the last alert of a pair
    counts as time 0, and detections at 0, 3 and 6 give one alert in
    all. *)
Lemma cooldown_counts_from_the_last_alert :
  let counts frames :=
    map (λ alerts, length (alerts_for 1 0 0 alerts)) (run init 1 frames).2 in
  valid_boxes (sight_hits (close_pair 0)) = [(100, 100, 40, 80)%Z]
  ∧ sight_machinery (close_pair 0) = [(120, 100, 100, 80)%Z]
  ∧ closer_than
      (dist_sq (center (100, 100, 40, 80)%Z) (center (120, 100, 100, 80)%Z))
      (proximity_threshold init) = true
  ∧ alert_cooldown init = 5%Q
  ∧ counts [close_pair 1000; close_pair 1001; close_pair 1003] = [1; 0; 0]
  ∧ counts [close_pair 1000; close_pair 1001; close_pair 1006] = [1; 0; 1]
  ∧ counts [close_pair 0; close_pair 3; close_pair 6] = [0; 0; 1].
Proof. by vm_compute. Qed.

(** C8. The alerts of a pass come in index order: by worker index, and for
    one worker by machine index, each pair at most once. What a pass
    returns, clock readings and screenshots apart, is fixed by the boxes,
    the time of the pass and the cooldown entries of the camera; two passes
    given the same return the same alerts in the same order. *)
Theorem alerts_in_index_order (st : t) (cam : Z) (s : sight) :
  (∃ ps : list (nat * nat),
     StronglySorted pair_lt ps
     ∧ map (λ r, (worker_id r, machine_id r)) (detect st cam s).2
       = map (λ p, (worker_name cam p.1, machine_name cam p.2)) ps)
  ∧ (∀ st' s',
       proximity_threshold st' = proximity_threshold st →
       alert_cooldown st' = alert_cooldown st →
       cooldowns_of st' cam = cooldowns_of st cam →
       sight_hits s' = sight_hits s →
       sight_machinery s' = sight_machinery s →
       sight_time s' = sight_time s →
       map gist (detect st' cam s').2 = map gist (detect st cam s).2).
Proof.
  split.
  - destruct (alerts_of_pass cam s st) as [-> _].
    destruct (alerts_from_sorted cam s st (valid_boxes (sight_hits s)) 0 0)
      as (ps & Hps & _ & Hmap).
    by exists ps.
  - intros st' s' H1 H2 H3 H4 H5 H6.
    destruct (alerts_of_pass cam s st) as [-> _].
    destruct (alerts_of_pass cam s' st') as [-> _].
    rewrite H4. by apply alerts_from_gist.
Qed.

Lemma alerts_in_index_order_witness :
  let s := two_by_two 1000 (λ _, Datetime "20240101_000000" "2024-01-01T00:00:00")
             (λ _, false) in
  let s' := two_by_two 1000 (λ n, Datetime "20250101_000000" (pretty n))
              (λ _, true) in
  map (λ r, (worker_id r, machine_id r)) (detect init 1 s).2
  = [ ("worker_1_0", "machine_1_0"); ("worker_1_0", "machine_1_1");
      ("worker_1_1", "machine_1_1") ]
  ∧ map gist (detect init 1 s').2 = map gist (detect init 1 s).2.
Proof.
  split; [by vm_compute |].
  apply (proj2 (alerts_in_index_order init 1
                  (two_by_two 1000
                     (λ _, Datetime "20240101_000000" "2024-01-01T00:00:00")
                     (λ _, false)))); reflexivity.
Defined.

End ProximityClaims.

(** ** Stream sources *)

Section CameraClaims.
Import Camera.

(** C5. [get_frame] always returns a frame. When the source has never
    produced one, the frame returned is a black image of 480 by 640 with
    the name of the source followed by " - No Frame Available" written on
    it; otherwise it has the contents of [last_frame]. In both cases it is
    a new array and the call changes no other array and no source, so that
    writing to the array returned, whatever is written, changes neither
    the array [last_frame] points to, nor any other array that existed,
    nor the source object. *)
Theorem get_frame_returns_a_copy (w : world) (self : loc) (c : IPCamera) :
  sources w !! self = Some c →
  (∀ f, last_frame c = Some f → is_Some (arrays w !! f)) →
  ∃ r w',
    get_frame self w = (Ok r, w', [Acquire self; Release self])
    ∧ (r ∉ dom (arrays w))
    ∧ is_Some (arrays w' !! r)
    ∧ (last_frame c = None →
         arrays w' !! r
         = Some {| shape := (480, 640, 3)%nat;
                   base := Zeros;
                   strokes :=
                     [ PutText (name c +:+ " - No Frame Available")
                         (50, 50)%Z (7 # 10) (255, 255, 255)%Z 2 ] |})
    ∧ (∀ f, last_frame c = Some f → arrays w' !! r = arrays w !! f)
    ∧ sources w' = sources w
    ∧ (∀ l, l ≠ r → arrays w' !! l = arrays w !! l)
    ∧ (∀ a,
         sources (set_arrays (<[r := a]> (arrays w')) w') !! self = Some c
         ∧ (∀ l, l ∈ dom (arrays w) →
              arrays (set_arrays (<[r := a]> (arrays w')) w') !! l
              = arrays w !! l)
         ∧ (∀ f, last_frame c = Some f →
              arrays (set_arrays (<[r := a]> (arrays w')) w') !! f
              = arrays w !! f)).
Proof.
  intros Hself Hwf.
  pose proof (is_fresh (dom (arrays w))) as Hfresh.
  assert (∀ l, l ∈ dom (arrays w) → l ≠ fresh (dom (arrays w))) as Hold.
  { intros l Hl ->. by apply Hfresh. }
  unfold get_frame, with_lock, bind, read_self, bind, get, ret. simpl.
  rewrite Hself.
  destruct (last_frame c) as [f|] eqn:Hlast.
  - destruct (Hwf f eq_refl) as [a Ha].
    unfold copy, bind, get, new_array, bind, get, modify, ret. simpl. rewrite Ha. simpl.
    eexists _, _. split; [reflexivity |]. simpl.
    assert (f ≠ fresh (dom (arrays w))) as Hne.
    { apply Hold. apply elem_of_dom. by exists a. }
    split; [done |]. rewrite lookup_insert_eq.
    split; [by eexists |]. split; [done |].
    split; [by intros ? [= <-] |]. split; [done |].
    split; [intros l Hl; by rewrite lookup_insert_ne |].
    intros a'. split; [done |]. rewrite insert_insert_eq. split.
    + intros l Hl. rewrite lookup_insert_ne; [done |]. intros <-. by apply (Hold _ Hl).
    + intros f' [= <-]. by rewrite lookup_insert_ne.
  - unfold new_array, bind, get, modify, ret. simpl.
    eexists _, _. split; [reflexivity |]. simpl.
    split; [done |]. rewrite lookup_insert_eq.
    split; [by eexists |]. split; [done |]. split; [done |]. split; [done |].
    split; [intros l Hl; by rewrite lookup_insert_ne |].
    intros a'. split; [done |]. rewrite insert_insert_eq. split; [| done].
    intros l Hl. rewrite lookup_insert_ne; [done |]. intros <-. by apply (Hold _ Hl).
Qed.

Lemma get_frame_returns_a_copy_witness :
  let w0 :=
    empty_world 1000 [Opens] [Reads (Ndarray (2, 2, 3)%nat (Decoded [7; 7]%Z) [])] in
  let w1 := (add_camera 0 "rtsp://a" "" w0).1.2 in
  let w2 := (_update_frame_turn 1%positive w1).1.2 in
  (∃ r w',
     get_frame 1%positive w1 = (Ok r, w', [Acquire 1%positive; Release 1%positive])
     ∧ arrays w' !! r
       = Some (Ndarray (480, 640, 3)%nat Zeros
                 [ PutText "Camera-0 - No Frame Available" (50, 50)%Z (7 # 10)
                     (255, 255, 255)%Z 2 ])
     ∧ ∀ a, sources (set_arrays (<[r := a]> (arrays w')) w') !! 1%positive
            = sources w1 !! 1%positive)
  ∧ ∃ r w',
      get_frame 1%positive w2 = (Ok r, w', [Acquire 1%positive; Release 1%positive])
      ∧ arrays w' !! r = Some (Ndarray (2, 2, 3)%nat (Decoded [7; 7]%Z) [])
      ∧ r ≠ 1%positive
      ∧ ∀ a, arrays (set_arrays (<[r := a]> (arrays w')) w') !! 1%positive
             = Some (Ndarray (2, 2, 3)%nat (Decoded [7; 7]%Z) []).
Proof.
  cbv zeta.
  set (w1 := (add_camera 0 "rtsp://a" ""
                (empty_world 1000 [Opens]
                   [Reads (Ndarray (2, 2, 3)%nat (Decoded [7; 7]%Z) [])])).1.2).
  set (w2 := (_update_frame_turn 1%positive w1).1.2).
  split.
  - assert (∃ c, sources w1 !! 1%positive = Some c ∧ last_frame c = None
                 ∧ name c = "Camera-0") as (c & Hc & Hlast & Hname).
    { eexists. split; [by vm_compute |]. split; reflexivity. }
    destruct (get_frame_returns_a_copy w1 1%positive c Hc)
      as (r & w' & Hrun & _ & _ & Hnone & _ & _ & _ & Hwrite).
    { intros f. by rewrite Hlast. }
    exists r, w'. split; [exact Hrun |]. split.
    + etrans; [exact (Hnone Hlast) |]. by rewrite Hname.
    + intros a. destruct (Hwrite a) as [Hkept _].
      etrans; [exact Hkept | symmetry; exact Hc].
  - assert (∃ c, sources w2 !! 1%positive = Some c ∧ last_frame c = Some 1%positive)
      as (c & Hc & Hlast).
    { eexists. split; [by vm_compute | reflexivity]. }
    assert (arrays w2 !! 1%positive
            = Some (Ndarray (2, 2, 3)%nat (Decoded [7; 7]%Z) [])) as Harr
      by (by vm_compute).
    destruct (get_frame_returns_a_copy w2 1%positive c Hc)
      as (r & w' & Hrun & Hfresh & _ & _ & Hsame & _ & _ & Hwrite).
    { intros f. rewrite Hlast. intros [= <-]. eexists. exact Harr. }
    exists r, w'. split; [exact Hrun |]. split.
    + etrans; [exact (Hsame _ Hlast) | exact Harr].
    + split.
      * intros ->. apply Hfresh. apply elem_of_dom. eexists. exact Harr.
      * intros a. destruct (Hwrite a) as (_ & _ & Hkept).
        etrans; [exact (Hkept _ Hlast) | exact Harr].
Defined.

End CameraClaims.

Section Spares.
Import Camera.

Context (old : loc).

Lemma spares_ret {A} (a : A) w : spares old (ret a) w.
Proof. split; [done | apply not_elem_of_nil]. Qed.

Lemma spares_raise {A} e w : spares old (raise (A := A) e) w.
Proof. split; [done | apply not_elem_of_nil]. Qed.

Lemma spares_get w : spares old get w.
Proof. split; [done | apply not_elem_of_nil]. Qed.

Lemma spares_emit e w : e ≠ CapRelease old → spares old (emit e) w.
Proof.
  intros Hne. split; [done |]. simpl.
  intros Heq%list_elem_of_singleton. congruence.
Qed.

Lemma spares_modify f w :
  sources (f w) !! old = sources w !! old → spares old (modify f) w.
Proof. intros H. split; [done | apply not_elem_of_nil]. Qed.

Lemma spares_bind {A B} (m : M A) (k : A → M B) w :
  spares old m w → (∀ a w1, spares old (k a) w1) → spares old (bind m k) w.
Proof.
  unfold spares, bind. intros [Hm1 Hm2] Hk.
  destruct (m w) as [[[a|e] w1] ev1]; simpl in *; [| done].
  specialize (Hk a w1). destruct (k a w1) as [[r2 w2] ev2]. simpl in *.
  destruct Hk as [Hk1 Hk2]. split; [congruence |].
  rewrite elem_of_app. tauto.
Qed.

(** The same when what follows depends on the world it starts in. *)
Lemma spares_bind_get {B} (k : world → M B) w :
  spares old (k w) w → spares old (bind get k) w.
Proof.
  unfold spares, bind, get. simpl.
  destruct (k w w) as [[r2 w2] ev2]. done.
Qed.

Lemma spares_try_except {A} (body : M A) handler w :
  spares old body w → (∀ e w1, spares old (handler e) w1) →
  spares old (try_except body handler) w.
Proof.
  unfold spares, try_except. intros [Hm1 Hm2] Hk.
  destruct (body w) as [[[a|e] w1] ev1]; simpl in *; [done |].
  specialize (Hk e w1). destruct (handler e w1) as [[r2 w2] ev2]. simpl in *.
  destruct Hk as [Hk1 Hk2]. split; [congruence |].
  rewrite elem_of_app. tauto.
Qed.

Lemma spares_update_self self f w :
  self ≠ old → spares old (update_self self f) w.
Proof.
  intros Hne. apply spares_modify. simpl. by rewrite lookup_alter_ne.
Qed.

Lemma spares_read_self self w : spares old (read_self self) w.
Proof.
  unfold read_self. apply spares_bind_get.
  destruct (sources w !! self); [apply spares_ret | apply spares_raise].
Qed.

Lemma spares_new_array a w : spares old (new_array a) w.
Proof.
  unfold new_array. apply spares_bind_get. apply spares_bind.
  - by apply spares_modify.
  - intros. apply spares_ret.
Qed.

Lemma spares_time_time w : spares old time_time w.
Proof. unfold time_time. apply spares_bind_get. apply spares_ret. Qed.

Lemma spares_video_capture u w : spares old (video_capture u) w.
Proof.
  unfold video_capture. apply spares_bind; [by apply spares_emit |].
  intros _ w1. apply spares_bind_get. apply spares_bind.
  - by apply spares_modify.
  - intros _ w2. destruct (head (opens w1)) as [[| |]|];
      (apply spares_ret || apply spares_raise).
Qed.

Lemma spares_start_thread tg self w : spares old (start_thread tg self) w.
Proof.
  unfold start_thread. apply spares_bind; [by apply spares_emit |].
  intros _ w1. by apply spares_modify.
Qed.

Lemma spares_setup_fallback self w :
  self ≠ old → spares old (_setup_fallback self) w.
Proof.
  intros Hne. unfold _setup_fallback.
  apply spares_bind; [apply spares_read_self |]. intros c w1.
  apply spares_bind; [by apply spares_emit |]. intros _ w2.
  apply spares_bind; [by apply spares_update_self |]. intros _ w3.
  apply spares_bind; [by apply spares_update_self |]. intros _ w4.
  apply spares_bind; [apply spares_new_array |]. intros frame w5.
  apply spares_bind; [by apply spares_update_self |]. intros _ w6.
  apply spares_start_thread.
Qed.

Lemma spares_connect self w : self ≠ old → spares old (connect self) w.
Proof.
  intros Hne. unfold connect. apply spares_try_except.
  - apply spares_bind; [apply spares_read_self |]. intros c w1.
    apply spares_bind; [apply spares_video_capture |]. intros k w2.
    apply spares_bind; [by apply spares_update_self |]. intros _ w3.
    destruct (cap_opened k).
    + apply spares_bind; [by apply spares_update_self |]. intros _ w4.
      apply spares_bind; [apply spares_start_thread |]. intros _ w5.
      apply spares_ret.
    + apply spares_bind; [by apply spares_emit |]. intros _ w4.
      apply spares_bind; [by apply spares_setup_fallback |]. intros _ w5.
      apply spares_ret.
  - intros e w1.
    apply spares_bind; [apply spares_read_self |]. intros c w2.
    apply spares_bind; [by apply spares_emit |]. intros _ w3.
    apply spares_bind; [by apply spares_setup_fallback |]. intros _ w4.
    apply spares_ret.
Qed.

Lemma spares_new_IPCamera u nm w :
  is_Some (sources w !! old) → spares old (new_IPCamera u nm) w.
Proof.
  intros Hold. unfold new_IPCamera. apply spares_bind_get.
  assert (fresh (dom (sources w)) ≠ old) as Hne.
  { intros Heq. apply (is_fresh (dom (sources w))).
    rewrite Heq. by apply elem_of_dom. }
  apply spares_bind; [apply spares_time_time |]. intros now w1.
  apply spares_bind.
  - apply spares_modify. simpl. by rewrite lookup_insert_ne.
  - intros _ w2. apply spares_bind; [by apply spares_connect |].
    intros _ w3. apply spares_ret.
Qed.

End Spares.

Section CameraDefects.
Import Camera.

(** [add_camera] releases nothing: whatever the world and the id, every
    source object that exists is left as it is. *)
Lemma add_camera_spares_sources old camera_id u nm w :
  is_Some (sources w !! old) → spares old (add_camera camera_id u nm) w.
Proof.
  intros Hold. unfold add_camera. apply spares_try_except.
  - apply spares_bind; [by apply spares_new_IPCamera |]. intros camera w1.
    apply spares_bind; [by apply spares_modify |]. intros _ w2.
    apply spares_ret.
  - intros e w1. apply spares_bind; [by apply spares_emit |].
    intros _ w2. apply spares_ret.
Qed.

(** C7, where the code departs from it. Registering a camera under an id
    that is taken puts the new source in the dictionary and returns [True],
    but no [release] takes place: in every world, a source object that
    exists is the same after [add_camera], and its capture is not released.
    So the source that is replaced is left running, its capture open, its
    thread alive. [remove_camera], on the same world, does release it. *)
Theorem add_camera_leaves_old_source_running :
  (∀ w old c camera_id u nm,
     spares old (add_camera camera_id u nm)
       (set_sources (<[old := c]> (sources w)) w))
  ∧ (let w0 := empty_world 1000 [Opens; Opens] [] in
     let first := add_camera 0 "rtsp://a" "" w0 in
     let w1 := first.1.2 in
     let second := add_camera 0 "rtsp://b" "" w1 in
     let w2 := second.1.2 in
     let removal := remove_camera 0 w1 in
     first.1.1 = Ok true ∧ second.1.1 = Ok true
     ∧ cameras w1 !! 0%Z = Some 1%positive
     ∧ cameras w2 !! 0%Z = Some 2%positive
     ∧ second.2 = [CapOpen "rtsp://b"; Start UpdateFrame 2%positive]
     ∧ sources w2 !! 1%positive = sources w1 !! 1%positive
     ∧ is_running <$> sources w2 !! 1%positive = Some true
     ∧ cap_released <$> (sources w2 !! 1%positive ≫= cap) = Some false
     ∧ alive w2 (UpdateFrame, 1%positive) = true
     ∧ removal.2 = [CapRelease 1%positive]
     ∧ is_running <$> sources removal.1.2 !! 1%positive = Some false
     ∧ cap_released <$> (sources removal.1.2 !! 1%positive ≫= cap) = Some true
     ∧ alive removal.1.2 (UpdateFrame, 1%positive) = false).
Proof.
  split; [| by vm_compute].
  intros w old c camera_id u nm.
  apply add_camera_spares_sources. simpl.
  rewrite lookup_insert_eq. by eexists.
Qed.

Lemma cap_read_events self w :
  ∃ r w1 ev, cap_read self w = (r, w1, CapRead self :: ev).
Proof.
  unfold cap_read, bind, emit, get, modify, ret, raise. simpl.
  destruct (head (reads w)) as [[a| |]|]; simpl; eauto.
Qed.

(** C10, where the code departs from it. Every turn of the loop of
    [_update_frame] takes the lock and then calls [cap.read()] with the
    lock held. When the read fails, the one-second sleep and the reopening
    of the capture happen under the lock as well. The loop of
    [_update_fallback_frame] does what the claim asks: it sleeps after the
    lock is released. *)
Theorem update_frame_blocks_holding_the_lock :
  (∀ w self, ∃ rest,
     (_update_frame_turn self w).2 = Acquire self :: CapRead self :: rest
     ∧ blocked_holding 0 (_update_frame_turn self w).2
       = CapRead self :: blocked_holding 1 rest)
  ∧ (let w0 := empty_world 1000 [Opens; Opens] [] in
     let w1 := (add_camera 0 "rtsp://a" "" w0).1.2 in
     (_update_frame_turn 1%positive w1).2
     = [ Acquire 1%positive; CapRead 1%positive;
         Stdout "Lost connection to Camera-0, attempting to reconnect...";
         CapRelease 1%positive; Sleep 1; CapOpen "rtsp://a";
         Release 1%positive ]
     ∧ blocked_holding 0 (_update_frame_turn 1%positive w1).2
       = [CapRead 1%positive; Sleep 1; CapOpen "rtsp://a"])
  ∧ (let w0 := empty_world 1000 [StaysClosed] [] in
     let w1 := (add_camera 0 "rtsp://a" "" w0).1.2 in
     (_update_fallback_frame_turn 1%positive w1).2
     = [Acquire 1%positive; Release 1%positive; Sleep (1 # 10)]
     ∧ blocked_holding 0 (_update_fallback_frame_turn 1%positive w1).2 = []).
Proof.
  split; [| split; by vm_compute].
  intros w self.
  assert (∃ rest, (_update_frame_turn self w).2
                  = Acquire self :: CapRead self :: rest) as [rest Hrest].
  { unfold _update_frame_turn, try_except, with_lock.
    unfold bind at 1.
    destruct (cap_read_events self w) as (r & w1 & ev & ->).
    destruct r as [frame|e].
    - destruct frame as [f|];
        destruct (bind _ _ w1) as [[r2 w2] ev2];
        (destruct r2 as [b|e]; simpl; [by eexists |]);
        destruct (bind _ _ w2) as [[r3 w3] ev3]; simpl; by eexists.
    - simpl. destruct (bind _ _ w1) as [[r3 w3] ev3]. simpl. by eexists. }
  exists rest. split; [done |]. by rewrite Hrest.
Qed.

End CameraDefects.

(** * The rest of the stream sources *)

Section CameraRuns.
Import Camera.

Ltac unfold_m :=
  unfold add_camera, remove_camera, get_camera, release, get_frame, new_IPCamera,
    _update_frame_turn, _update_fallback_frame_turn, connect, _setup_fallback,
    with_lock, try_except, cap_read, cap_release, video_capture, start_thread,
    time_sleep, time_time, copy, new_array, update_self, read_self,
    bind, emit, get, modify, ret, raise.

Lemma alter_lookup {A} (f : A → A) (m : gmap loc A) i x :
  m !! i = Some x → alter f i m = <[i := f x]> m.
Proof.
  intros H. apply map_eq. intros j. destruct (decide (i = j)) as [->|].
  - by rewrite lookup_alter_eq, lookup_insert_eq, H.
  - by rewrite lookup_alter_ne, lookup_insert_ne.
Qed.

Lemma camera_name_nonempty (camera_id : Z) nm :
  (if decide (nm = "") then "Camera-" +:+ pretty camera_id else nm) ≠ "".
Proof. case_decide; [by rewrite string_app_cons | done]. Qed.

(** What [add_camera] does, whatever becomes of [cv2.VideoCapture]. *)
Lemma add_camera_run w (camera_id : Z) u nm :
  let self := fresh (dom (sources w)) in
  let res := add_camera camera_id u nm w in
  let tg := if will_open w then UpdateFrame else UpdateFallbackFrame in
  res.1.1 = Ok true
  ∧ cameras res.1.2 = <[camera_id := self]> (cameras w)
  ∧ threads res.1.2 = threads w ++ [(tg, self)]
  ∧ clock res.1.2 = clock w
  ∧ ∃ c, sources res.1.2 = <[self := c]> (sources w)
      ∧ url c = u
      ∧ name c = (if decide (nm = "") then "Camera-" +:+ pretty camera_id else nm)
      ∧ is_running c = true ∧ use_fallback c = negb (will_open w)
      ∧ last_frame c = None
      ∧ (will_open w = true →
           cap c = Some {| cap_url := u; cap_opened := true; cap_released := false |}
           ∧ arrays res.1.2 = arrays w)
      ∧ (will_open w = false →
           fallback_frames c = [fresh (dom (arrays w))]
           ∧ arrays res.1.2
             = <[fresh (dom (arrays w)) := offline_frame (name c)]> (arrays w)).
Proof.
  pose proof (camera_name_nonempty camera_id nm) as Hnm.
  unfold will_open. unfold_m. simpl. rewrite decide_False by done.
  rewrite lookup_insert_eq. simpl.
  destruct (head (opens w)) as [[| |]|] eqn:Ho; simpl;
    rewrite ?alter_insert_eq, ?lookup_insert_eq; simpl;
    rewrite ?alter_insert_eq, ?lookup_insert_eq; simpl;
    rewrite ?alter_insert_eq, ?insert_insert_eq;
    (split; [done |]); (split; [done |]); (split; [done |]); (split; [done |]);
    eexists; (split; [reflexivity |]); simpl; repeat split; done.
Qed.

(** X1. [add_camera] cannot fail on the capture: whether
    [cv2.VideoCapture] opens, stays closed or raises, the call returns
    [True], the id leads to a new source object that is running with the
    URL given (live when the capture opened, in fallback mode otherwise),
    the thread started for it is alive, and the sources and ids that were
    there are as before. *)
Theorem add_camera_always_registers_a_running_source w (camera_id : Z) u nm :
  let res := add_camera camera_id u nm w in
  let tg := if will_open w then UpdateFrame else UpdateFallbackFrame in
  res.1.1 = Ok true
  ∧ ∃ self c,
      (self ∉ dom (sources w))
      ∧ get_camera camera_id res.1.2 = (Ok (Some self), res.1.2, [])
      ∧ sources res.1.2 !! self = Some c
      ∧ url c = u ∧ is_running c = true ∧ use_fallback c = negb (will_open w)
      ∧ threads res.1.2 = threads w ++ [(tg, self)]
      ∧ alive res.1.2 (tg, self) = true
      ∧ (∀ l, l ∈ dom (sources w) → sources res.1.2 !! l = sources w !! l)
      ∧ (∀ j, j ≠ camera_id → cameras res.1.2 !! j = cameras w !! j).
Proof.
  destruct (add_camera_run w camera_id u nm)
    as (Hok & Hcams & Hthreads & _ & c & Hsrc & Hurl & _ & Hrun & Hfb & _).
  cbv zeta in *. split; [done |].
  exists (fresh (dom (sources w))), c.
  pose proof (is_fresh (dom (sources w))) as Hfresh.
  split; [done |]. split.
  { unfold get_camera, bind, get, ret. simpl.
    by rewrite Hcams, lookup_insert_eq. }
  split; [by rewrite Hsrc, lookup_insert_eq |].
  split; [done |]. split; [done |]. split; [done |]. split; [done |]. split.
  { unfold alive. simpl. rewrite Hsrc, lookup_insert_eq.
    unfold update_loop_runs, fallback_loop_runs. rewrite Hrun, Hfb.
    by destruct (will_open w). }
  split.
  - intros l Hl. rewrite Hsrc, lookup_insert_ne; [done |]. by intros <-.
  - intros j Hj. by rewrite Hcams, lookup_insert_ne.
Qed.

(** What [release] does to a source that exists. *)
Lemma release_run w self c :
  sources w !! self = Some c →
  release self w
  = (Ok tt, set_sources (<[self := released c]> (sources w)) w,
     match cap c with Some _ => [CapRelease self] | None => [] end).
Proof.
  intros Hc. unfold_m. simpl. rewrite lookup_alter_eq, Hc. simpl.
  rewrite (alter_lookup _ _ _ _ Hc).
  destruct (cap c) as [k|] eqn:Hcap; simpl.
  - rewrite alter_insert_eq. reflexivity.
  - unfold released. rewrite Hcap. simpl.
    assert (set_cap None (set_is_running false c) = set_is_running false c)
      as -> by (destruct c; simpl in *; by subst).
    reflexivity.
Qed.

(** X2. [remove_camera] on an id that is not registered returns [False]
    and does nothing. On a registered id it returns [True], releases the
    source (not running any more, its capture released if it had one) and
    forgets the id, so that [get_camera] finds nothing; the other ids and
    sources, the arrays and the threads are as before. *)
Theorem remove_camera_releases_and_forgets w (camera_id : Z) :
  (cameras w !! camera_id = None →
     remove_camera camera_id w = (Ok false, w, []))
  ∧ (∀ l c,
       cameras w !! camera_id = Some l → sources w !! l = Some c →
       let res := remove_camera camera_id w in
       res.1.1 = Ok true
       ∧ res.2 = match cap c with Some _ => [CapRelease l] | None => [] end
       ∧ cameras res.1.2 = delete camera_id (cameras w)
       ∧ get_camera camera_id res.1.2 = (Ok None, res.1.2, [])
       ∧ sources res.1.2 = <[l := released c]> (sources w)
       ∧ is_running (released c) = false
       ∧ (cap_released <$> cap (released c)) = (λ _, true) <$> cap c
       ∧ arrays res.1.2 = arrays w ∧ threads res.1.2 = threads w).
Proof.
  split.
  - intros Hnone. unfold remove_camera, bind, get. simpl. by rewrite Hnone.
  - intros l c Hcam Hsrc. cbv zeta.
    assert (remove_camera camera_id w
            = (Ok true,
               set_cameras (delete camera_id (cameras w))
                 (set_sources (<[l := released c]> (sources w)) w),
               match cap c with Some _ => [CapRelease l] | None => [] end))
      as ->.
    { unfold remove_camera, bind, get, modify, ret. simpl. rewrite Hcam.
      rewrite (release_run w l c Hsrc). simpl. by rewrite app_nil_r. }
    simpl.
    split; [done |]. split; [done |]. split; [done |].
    split.
    { unfold get_camera, bind, get, ret. simpl. by rewrite lookup_delete_eq. }
    split; [done |]. split; [done |]. split; [| done].
    by destruct (cap c).
Qed.

Lemma remove_camera_releases_and_forgets_witness :
  let w1 := (add_camera 0 "rtsp://a" "" (empty_world 1000 [Opens] [])).1.2 in
  (remove_camera 0 w1).1.1 = Ok true
  ∧ (remove_camera 0 w1).2 = [CapRelease 1%positive]
  ∧ get_camera 0 (remove_camera 0 w1).1.2 = (Ok None, (remove_camera 0 w1).1.2, [])
  ∧ remove_camera 5 w1 = (Ok false, w1, []).
Proof.
  cbv zeta.
  set (w1 := (add_camera 0 "rtsp://a" "" (empty_world 1000 [Opens] [])).1.2).
  assert (∃ c, sources w1 !! 1%positive = Some c
               ∧ cap c = Some {| cap_url := "rtsp://a"; cap_opened := true;
                                 cap_released := false |})
    as (c & Hc & Hcap).
  { eexists. split; [by vm_compute | reflexivity]. }
  destruct (remove_camera_releases_and_forgets w1 0) as [_ Hsome].
  destruct (Hsome 1%positive c) as (H1 & H2 & _ & H4 & _); [by vm_compute | exact Hc |].
  destruct (remove_camera_releases_and_forgets w1 5) as [Hnone _].
  split; [exact H1 |]. split; [by rewrite H2, Hcap |]. split; [exact H4 |].
  apply Hnone. by vm_compute.
Defined.

(** X3. After [release] the loops make no further turn: [_update_frame]
    and [_update_fallback_frame] return at once, whatever the number of
    turns they are given. A second [release] leaves the source as the
    first one made it. *)
Theorem release_stops_the_loops w self c :
  sources w !! self = Some c →
  let w1 := (release self w).1.2 in
  sources w1 !! self = Some (released c)
  ∧ (∀ fuel, _update_frame fuel self w1 = (Ok tt, w1, []))
  ∧ (∀ fuel, _update_fallback_frame fuel self w1 = (Ok tt, w1, []))
  ∧ sources (release self w1).1.2 = sources w1.
Proof.
  intros Hc. cbv zeta. rewrite (release_run w self c Hc). simpl.
  assert (sources (set_sources (<[self := released c]> (sources w)) w) !! self
          = Some (released c)) as Hc1.
  { simpl. by rewrite lookup_insert_eq. }
  split; [done |]. split; [| split].
  - intros [|fuel]; [done |].
    simpl. unfold bind, read_self, bind, get, ret. simpl.
    by rewrite lookup_insert_eq.
  - intros [|fuel]; [done |].
    simpl. unfold bind, read_self, bind, get, ret. simpl.
    rewrite lookup_insert_eq. simpl.
    unfold fallback_loop_runs. simpl. by rewrite andb_false_r.
  - rewrite (release_run _ self (released c) Hc1). simpl.
    rewrite insert_insert_eq. f_equal.
    unfold released. destruct c as [? ? [k|] ? ? ? ? ? ? ?]; reflexivity.
Qed.

Lemma release_stops_the_loops_witness :
  let w0 := (add_camera 0 "rtsp://a" "" (empty_world 1000 [Opens] [])).1.2 in
  let w1 := (release 1%positive w0).1.2 in
  alive w0 (UpdateFrame, 1%positive) = true
  ∧ _update_frame 10 1%positive w1 = (Ok tt, w1, [])
  ∧ sources (release 1%positive w1).1.2 = sources w1.
Proof.
  cbv zeta.
  set (w0 := (add_camera 0 "rtsp://a" "" (empty_world 1000 [Opens] [])).1.2).
  assert (∃ c, sources w0 !! 1%positive = Some c) as (c & Hc).
  { eexists. by vm_compute. }
  destruct (release_stops_the_loops w0 1%positive c Hc) as (_ & Hup & _ & Hidem).
  split; [by vm_compute |]. split; [apply Hup | exact Hidem].
Defined.

(** What [get_frame] does when there is a frame. *)
Lemma get_frame_run w self c f a :
  sources w !! self = Some c → last_frame c = Some f → arrays w !! f = Some a →
  get_frame self w
  = (Ok (fresh (dom (arrays w))),
     set_arrays (<[fresh (dom (arrays w)) := a]> (arrays w)) w,
     [Acquire self; Release self]).
Proof.
  intros Hc Hf Ha. unfold_m. simpl. rewrite Hc, Hf. simpl. by rewrite Ha.
Qed.

(** X4. A turn of [_update_frame] whose read succeeds publishes the frame
    read: [last_frame] becomes a new array holding it, [last_accessed] the
    time of the turn, and the loop goes on. [get_frame] then returns yet
    another array with the same contents. *)
Theorem update_frame_turn_publishes w self c a rest :
  sources w !! self = Some c → reads w = Reads a :: rest →
  let f := fresh (dom (arrays w)) in
  let res := _update_frame_turn self w in
  res.1.1 = Ok false
  ∧ res.2 = [Acquire self; CapRead self; Release self]
  ∧ sources res.1.2 = <[self := publish f (clock w) c]> (sources w)
  ∧ arrays res.1.2 = <[f := a]> (arrays w)
  ∧ reads res.1.2 = rest
  ∧ update_loop_runs (publish f (clock w) c) = update_loop_runs c
  ∧ ∃ g w2,
      get_frame self res.1.2 = (Ok g, w2, [Acquire self; Release self])
      ∧ g ≠ f ∧ arrays w2 !! g = Some a ∧ arrays w2 !! f = Some a
      ∧ sources w2 = sources res.1.2.
Proof.
  intros Hc Hr. cbv zeta.
  assert (_update_frame_turn self w
          = (Ok false,
             set_sources (<[self := publish (fresh (dom (arrays w))) (clock w) c]>
                            (sources w))
               (set_arrays (<[fresh (dom (arrays w)) := a]> (arrays w))
                  (set_reads rest w)),
             [Acquire self; CapRead self; Release self])) as ->.
  { unfold_m. simpl. rewrite Hr. simpl. by rewrite (alter_lookup _ _ _ _ Hc). }
  simpl. repeat (split; [done |]).
  eexists _, _. split.
  { eapply get_frame_run; simpl.
    - apply lookup_insert_eq.
    - reflexivity.
    - apply lookup_insert_eq. }
  simpl. split.
  - intros Heq. pose proof (is_fresh (dom (<[fresh (dom (arrays w)) := a]> (arrays w))))
      as Hfresh.
    rewrite Heq in Hfresh. apply Hfresh. apply elem_of_dom.
    rewrite lookup_insert_eq. by eexists.
  - split; [by rewrite lookup_insert_eq |]. split; [| done].
    rewrite lookup_insert_ne; [by rewrite lookup_insert_eq |].
    intros Heq. pose proof (is_fresh (dom (<[fresh (dom (arrays w)) := a]> (arrays w))))
      as Hfresh.
    rewrite Heq in Hfresh. apply Hfresh. apply elem_of_dom.
    rewrite lookup_insert_eq. by eexists.
Qed.

Lemma update_frame_turn_publishes_witness :
  let a := Ndarray (2, 2, 3)%nat (Decoded [7; 7]%Z) [] in
  let w := (add_camera 0 "rtsp://a" "" (empty_world 1000 [Opens] [Reads a])).1.2 in
  (_update_frame_turn 1%positive w).1.1 = Ok false
  ∧ arrays (_update_frame_turn 1%positive w).1.2 = <[fresh (dom (arrays w)) := a]> (arrays w)
  ∧ reads (_update_frame_turn 1%positive w).1.2 = [].
Proof.
  cbv zeta.
  set (a := Ndarray (2, 2, 3)%nat (Decoded [7; 7]%Z) []).
  set (w := (add_camera 0 "rtsp://a" "" (empty_world 1000 [Opens] [Reads a])).1.2).
  assert (∃ c, sources w !! 1%positive = Some c) as (c & Hc).
  { eexists. by vm_compute. }
  destruct (update_frame_turn_publishes w 1%positive c a [] Hc)
    as (H1 & _ & _ & H4 & H5 & _); [by vm_compute |].
  split; [exact H1 |]. split; [exact H4 | exact H5].
Defined.

(** X5. A turn of [_update_frame] whose read fails says so, releases the
    capture, sleeps one second and opens the URL again, once, all of it
    with the lock held. When the capture opens the loop goes on with it,
    and the frame published last is still the one served. When it stays
    closed the turn says so and ends the loop: the source keeps the closed
    capture and the frame published last, is in fallback mode with one
    offline frame, and a fallback thread is started. When opening raises,
    the error is caught: the turn prints it, sleeps half a second more and
    the loop goes on with the released capture. *)
Theorem update_frame_turn_reconnects_once w self c rest :
  sources w !! self = Some c → reads w = ReadsNothing :: rest →
  let res := _update_frame_turn self w in
  let lost := Stdout ("Lost connection to " +:+ name c
                      +:+ ", attempting to reconnect...") in
  let closed := (λ k, {| cap_url := cap_url k; cap_opened := false;
                         cap_released := true |}) <$> cap c in
  (will_open w = true →
     res.1.1 = Ok false
     ∧ res.2 = [Acquire self; CapRead self; lost; CapRelease self; Sleep 1;
                CapOpen (url c); Release self]
     ∧ sources res.1.2
       = <[self := set_cap (Some {| cap_url := url c; cap_opened := true;
                                    cap_released := false |}) c]> (sources w)
     ∧ arrays res.1.2 = arrays w ∧ threads res.1.2 = threads w)
  ∧ (head (opens w) = Some StaysClosed ∨ head (opens w) = None →
     let c' :=
       set_fallback_frames [fresh (dom (arrays w))]
         (set_is_running true
            (set_use_fallback true
               (set_cap (Some {| cap_url := url c; cap_opened := false;
                                 cap_released := false |}) c))) in
     res.1.1 = Ok true
     ∧ res.2 = [Acquire self; CapRead self; lost; CapRelease self; Sleep 1;
                CapOpen (url c);
                Stdout ("Reconnection failed for " +:+ name c
                        +:+ ", switching to fallback mode");
                Stdout ("Setting up fallback video for " +:+ name c);
                Start UpdateFallbackFrame self; Release self]
     ∧ filter (λ e, blocking e = true) res.2
       = [CapRead self; Sleep 1; CapOpen (url c)]
     ∧ threads res.1.2 = threads w ++ [(UpdateFallbackFrame, self)]
     ∧ alive res.1.2 (UpdateFrame, self) = false
     ∧ sources res.1.2 = <[self := c']> (sources w)
     ∧ use_fallback c' = true ∧ is_running c' = true
     ∧ last_frame c' = last_frame c
     ∧ fallback_frames c' = [fresh (dom (arrays w))]
     ∧ arrays res.1.2
       = <[fresh (dom (arrays w)) := offline_frame (name c)]> (arrays w))
  ∧ (head (opens w) = Some OpenRaises →
     res.1.1 = Ok false
     ∧ res.2 = [Acquire self; CapRead self; lost; CapRelease self; Sleep 1;
                CapOpen (url c); Release self;
                Stdout ("Error updating frame from " +:+ name c +:+ ": "
                        +:+ "cv2.error");
                Sleep (1 # 2)]
     ∧ sources res.1.2 = <[self := set_cap closed c]> (sources w)
     ∧ threads res.1.2 = threads w).
Proof.
  intros Hc Hr. cbv zeta. unfold will_open.
  split; [| split].
  - intros Ho. destruct (head (opens w)) as [[| |]|] eqn:Hhead; try done.
    unfold_m. simpl. rewrite Hr. simpl. rewrite Hc. simpl. rewrite Hhead. simpl.
    rewrite (alter_lookup _ _ _ _ Hc), alter_insert_eq.
    repeat split; reflexivity.
  - intros Ho.
    assert (match head (opens w) with
            | Some Opens => false | Some OpenRaises => false | _ => true
            end = true) as Hcase by (by destruct Ho as [-> | ->]).
    unfold_m. simpl. rewrite Hr. simpl. rewrite Hc. simpl.
    destruct (head (opens w)) as [[| |]|] eqn:Hhead; try done; simpl;
      rewrite (alter_lookup _ _ _ _ Hc), !alter_insert_eq, ?lookup_insert_eq;
      simpl; rewrite ?alter_insert_eq, ?lookup_insert_eq; simpl;
      rewrite ?alter_insert_eq, ?insert_insert_eq;
      (split; [done |]); (split; [done |]); (split; [done |]);
      (split; [done |]);
      (split; [unfold alive; simpl; by rewrite lookup_insert_eq |]);
      done.
  - intros Ho.
    unfold_m. simpl. rewrite Hr. simpl. rewrite Hc. simpl. rewrite Ho. simpl.
    rewrite (alter_lookup _ _ _ _ Hc), lookup_insert_eq. simpl. done.
Qed.

Lemma update_frame_turn_reconnects_once_witness :
  let w := (add_camera 0 "rtsp://a" ""
              (empty_world 1000 [Opens; StaysClosed] [ReadsNothing])).1.2 in
  (_update_frame_turn 1%positive w).1.1 = Ok true
  ∧ (_update_frame_turn 1%positive w).2
    = [Acquire 1%positive; CapRead 1%positive;
       Stdout "Lost connection to Camera-0, attempting to reconnect...";
       CapRelease 1%positive; Sleep 1; CapOpen "rtsp://a";
       Stdout "Reconnection failed for Camera-0, switching to fallback mode";
       Stdout "Setting up fallback video for Camera-0";
       Start UpdateFallbackFrame 1%positive; Release 1%positive]
  ∧ alive (_update_frame_turn 1%positive w).1.2 (UpdateFrame, 1%positive) = false
  ∧ threads (_update_frame_turn 1%positive w).1.2
    = [(UpdateFrame, 1%positive); (UpdateFallbackFrame, 1%positive)].
Proof.
  cbv zeta.
  set (w := (add_camera 0 "rtsp://a" ""
               (empty_world 1000 [Opens; StaysClosed] [ReadsNothing])).1.2).
  assert (∃ c, sources w !! 1%positive = Some c ∧ name c = "Camera-0"
               ∧ url c = "rtsp://a") as (c & Hc & Hname & Hurl).
  { eexists. split; [by vm_compute |]. split; reflexivity. }
  destruct (update_frame_turn_reconnects_once w 1%positive c [] Hc)
    as (_ & Hclosed & _); [by vm_compute |].
  destruct Hclosed as (H1 & H2 & _ & H3 & H4 & _); [left; by vm_compute |].
  split; [exact H1 |]. split; [| split; [exact H4 |]].
  - etrans; [exact H2 |]. by rewrite Hname, Hurl.
  - etrans; [exact H3 |]. by vm_compute.
Defined.

(** X6. A turn of [_update_fallback_frame] publishes a copy of the next
    fallback frame when more than half a second has passed since it last
    did, taking the lock for that only, and otherwise publishes nothing;
    in either case it then sleeps a tenth of a second with no lock held
    and does not raise. The frame published is a new array, not the
    fallback frame itself. *)
Theorem fallback_turn_republishes w self c f a :
  sources w !! self = Some c →
  fallback_frames c
    !! ((fallback_index c + 1) mod length (fallback_frames c)) = Some f →
  arrays w !! f = Some a →
  let res := _update_fallback_frame_turn self w in
  let index := (fallback_index c + 1) mod length (fallback_frames c) in
  let f1 := fresh (dom (arrays w)) in
  res.1.1 = Ok tt
  ∧ clock res.1.2 = (clock w + (1 # 10))%Q
  ∧ blocked_holding 0 res.2 = []
  ∧ (Qltb (1 # 2) (clock w - fallback_last_time c) = true →
       res.2 = [Acquire self; Release self; Sleep (1 # 10)]
       ∧ sources res.1.2
         = <[self := publish_fallback index f1 (clock w) c]> (sources w)
       ∧ arrays res.1.2 = <[f1 := a]> (arrays w)
       ∧ f1 ≠ f)
  ∧ (Qltb (1 # 2) (clock w - fallback_last_time c) = false →
       res.2 = [Sleep (1 # 10)]
       ∧ sources res.1.2 = sources w ∧ arrays res.1.2 = arrays w).
Proof.
  intros Hc Hf Ha. cbv zeta.
  assert (∃ n, length (fallback_frames c) = S n) as [n Hn].
  { apply lookup_lt_Some in Hf.
    destruct (length (fallback_frames c)); [lia | by eexists]. }
  assert (_update_fallback_frame_turn self w
          = if Qltb (1 # 2) (clock w - fallback_last_time c)
            then (Ok tt,
                  set_clock (clock w + (1 # 10))
                    (set_sources
                       (<[self := publish_fallback
                                    ((fallback_index c + 1)
                                     mod length (fallback_frames c))
                                    (fresh (dom (arrays w))) (clock w) c]>
                          (sources w))
                       (set_arrays (<[fresh (dom (arrays w)) := a]> (arrays w)) w)),
                  [Acquire self; Release self; Sleep (1 # 10)])
            else (Ok tt, set_clock (clock w + (1 # 10)) w, [Sleep (1 # 10)]))
    as ->.
  { unfold_m. simpl. rewrite Hc. simpl.
    destruct (Qltb (1 # 2) (clock w - fallback_last_time c)); simpl; [| done].
    rewrite Hc. simpl.
    assert (∀ (B : Type) (x y : B),
              match length (fallback_frames c) with 0 => x | S _ => y end = y)
      as Hmatch by (intros; by rewrite Hn).
    rewrite Hmatch, Hf. simpl. rewrite Ha. simpl.
    by rewrite (alter_lookup _ _ _ _ Hc). }
  destruct (Qltb (1 # 2) (clock w - fallback_last_time c)); simpl.
  - repeat (split; [done |]). split; [| done].
    intros _. repeat (split; [done |]).
    intros Heq. apply (is_fresh (dom (arrays w))). rewrite Heq.
    apply elem_of_dom. by eexists.
  - repeat (split; [done |]). done.
Qed.

Lemma fallback_turn_republishes_witness :
  let w := (add_camera 0 "rtsp://a" "" (empty_world 1000 [StaysClosed] [])).1.2 in
  let res := _update_fallback_frame_turn 1%positive w in
  res.2 = [Acquire 1%positive; Release 1%positive; Sleep (1 # 10)]
  ∧ arrays res.1.2 = <[fresh (dom (arrays w)) := offline_frame "Camera-0"]> (arrays w)
  ∧ clock res.1.2 = (clock w + (1 # 10))%Q.
Proof.
  cbv zeta.
  set (w := (add_camera 0 "rtsp://a" "" (empty_world 1000 [StaysClosed] [])).1.2).
  assert (∃ c, sources w !! 1%positive = Some c
               ∧ fallback_frames c = [1%positive] ∧ fallback_index c = 0
               ∧ fallback_last_time c = 0%Q)
    as (c & Hc & Hframes & Hindex & Hlast).
  { eexists. split; [by vm_compute | done]. }
  destruct (fallback_turn_republishes w 1%positive c 1%positive
              (offline_frame "Camera-0") Hc)
    as (_ & Hclock & _ & Hdue & _).
  - by rewrite Hframes, Hindex.
  - by vm_compute.
  - destruct Hdue as (Hev & _ & Harr & _).
    { rewrite Hlast. by vm_compute. }
    split; [exact Hev |]. split; [exact Harr | exact Hclock].
Defined.

Lemma bind_ok {A B} (m : M A) (k : A → M B) w a w1 ev1 :
  m w = (Ok a, w1, ev1) →
  bind m k w = (let '(r, w2, ev2) := k a w1 in (r, w2, ev1 ++ ev2)).
Proof. intros H. unfold bind. by rewrite H. Qed.

(** The loop of [_load_cameras_from_env], over any list of ids without
    repetition. *)
Lemma load_loop env ids :
  NoDup ids →
  ∀ w,
    let res := for_each ids (load_camera env) w in
    res.1.1 = Ok tt
    ∧ (∀ l, l ∈ dom (sources w) → sources res.1.2 !! l = sources w !! l)
    ∧ (∀ j, j ∉ ids → cameras res.1.2 !! j = cameras w !! j)
    ∧ (∀ i, i ∈ ids →
         match camera_url env i with
         | Some u =>
             if decide (u = "") then cameras res.1.2 !! i = cameras w !! i
             else ∃ l c, cameras res.1.2 !! i = Some l ∧ (l ∉ dom (sources w))
                         ∧ sources res.1.2 !! l = Some c
                         ∧ url c = u ∧ is_running c = true
         | None => cameras res.1.2 !! i = cameras w !! i
         end).
Proof.
  induction 1 as [|i ids Hi Hnodup IH]; intros w.
  { simpl. split; [done |]. split; [done |]. split; [done |].
    intros i Hnil. by apply elem_of_nil in Hnil. }
  cbn [for_each]. cbv zeta.
  assert (∃ w1, load_camera env i w = (Ok tt, w1, (load_camera env i w).2)
                ∧ (∀ l, l ∈ dom (sources w) → sources w1 !! l = sources w !! l)
                ∧ (∀ l, l ∈ dom (sources w) → l ∈ dom (sources w1))
                ∧ (∀ j, j ≠ i → cameras w1 !! j = cameras w !! j)
                ∧ match camera_url env i with
                  | Some u =>
                      if decide (u = "") then cameras w1 !! i = cameras w !! i
                      else ∃ l c, cameras w1 !! i = Some l
                                  ∧ (l ∉ dom (sources w))
                                  ∧ sources w1 !! l = Some c
                                  ∧ url c = u ∧ is_running c = true
                  | None => cameras w1 !! i = cameras w !! i
                  end) as (w1 & Hrun & Hsrc & Hdom & Hcams & Hmine).
  { unfold load_camera. destruct (camera_url env i) as [u|]; [| by exists w].
    destruct (decide (u = "")); [by exists w |].
    destruct (add_camera_run w i u "")
      as (Hok & Hc & _ & _ & c & Hs & Hurl & _ & Hrunning & _).
    cbv zeta in *. unfold bind, ret.
    destruct (add_camera i u "" w) as [[r w1] ev]. simpl in *. subst r.
    exists w1. simpl. rewrite app_nil_r. split; [done |].
    pose proof (is_fresh (dom (sources w))) as Hfresh.
    split; [| split; [| split]].
    - intros l Hl. rewrite Hs, lookup_insert_ne; [done |]. by intros <-.
    - intros l Hl. rewrite Hs, dom_insert_L. apply elem_of_union. by right.
    - intros j Hj. by rewrite Hc, lookup_insert_ne.
    - exists (fresh (dom (sources w))), c.
      rewrite Hc, Hs, !lookup_insert_eq. done. }
  destruct (IH w1) as (Hok & Hsrc' & Hcams' & Hothers).
  rewrite (bind_ok _ _ _ _ _ _ Hrun).
  destruct (for_each ids (load_camera env) w1) as [[r w2] ev2]. simpl in *.
  subst r.
  split; [done |]. split; [| split].
  - intros l Hl. rewrite Hsrc' by auto. auto.
  - intros j Hj. apply not_elem_of_cons in Hj as [Hne Hj].
    rewrite Hcams' by done. auto.
  - intros i' Hi'. apply elem_of_cons in Hi' as [-> | Hi'].
    + rewrite (Hcams' i Hi).
      destruct (camera_url env i) as [u|]; [| done].
      destruct (decide (u = "")); [done |].
      destruct Hmine as (l & c & Hl & Hfresh & Hc & Hu & Hrunning).
      exists l, c. repeat split; try done.
      rewrite Hsrc'; [done |]. apply elem_of_dom. by eexists.
    + assert (i' ≠ i) as Hne by (intros ->; done).
      specialize (Hothers i' Hi').
      destruct (camera_url env i') as [u|]; [| by rewrite Hothers, Hcams].
      destruct (decide (u = "")); [by rewrite Hothers, Hcams |].
      destruct Hothers as (l & c & Hl & Hfresh & Hc & Hu & Hrunning).
      exists l, c. repeat split; try done.
      intros Hin. apply Hfresh. auto.
Qed.

(** X7. [_load_cameras_from_env] registers the ids 0 to 3 and no other:
    for each of them the URL is the environment variable [CAMERA_i_URL]
    when it is set and the default otherwise; a camera whose URL is the
    empty string is skipped, every other one ends up registered with a new
    source that is running and has that URL. The loop does not raise. *)
Theorem load_cameras_from_env_registers env w :
  let res := _load_cameras_from_env env w in
  res.1.1 = Ok tt
  ∧ (∀ j, j ∉ [0; 1; 2; 3]%Z → cameras res.1.2 !! j = cameras w !! j)
  ∧ (∀ i, i ∈ [0; 1; 2; 3]%Z →
       ∃ u, camera_url env i
            = Some (default u (env !! ("CAMERA_" +:+ pretty i +:+ "_URL")))
         ∧ default_cameras !! i = Some u
         ∧ match env !! ("CAMERA_" +:+ pretty i +:+ "_URL") with
           | Some "" => cameras res.1.2 !! i = cameras w !! i
           | v => ∃ l c, cameras res.1.2 !! i = Some l ∧ (l ∉ dom (sources w))
                         ∧ sources res.1.2 !! l = Some c
                         ∧ url c = default u v ∧ is_running c = true
           end).
Proof.
  assert (NoDup [0; 1; 2; 3]%Z) as Hnodup.
  { apply (bool_decide_unpack (NoDup [0; 1; 2; 3]%Z)). by vm_compute. }
  destruct (load_loop env _ Hnodup w) as (Hok & _ & Hothers & Hmine).
  cbv zeta in *. unfold _load_cameras_from_env, bind.
  split; [exact Hok |]. split; [exact Hothers |].
  intros i Hi. specialize (Hmine i Hi).
  assert (∃ u, default_cameras !! i = Some u ∧ u ≠ "") as (u & Hu & Hne).
  { repeat (apply elem_of_cons in Hi as [-> | Hi]); [.. | by apply elem_of_nil in Hi];
      eexists; (split; [by vm_compute | done]). }
  exists u. unfold camera_url, os_getenv in *. rewrite Hu in *.
  destruct (env !! ("CAMERA_" +:+ pretty i +:+ "_URL")) as [v|]; simpl.
  - split; [done |]. split; [done |].
    destruct (decide (v = "")) as [-> | Hv]; [done |].
    destruct v; [done | exact Hmine].
  - split; [done |]. split; [done |].
    by rewrite decide_False in Hmine.
Qed.

Lemma load_cameras_from_env_registers_witness :
  let env : gmap string string := {[ "CAMERA_1_URL" := "" ]} in
  let w := empty_world 1000 [Opens] [] in
  let w' := (_load_cameras_from_env env w).1.2 in
  cameras w' !! 1%Z = None
  ∧ ∃ l c, cameras w' !! 0%Z = Some l ∧ sources w' !! l = Some c
           ∧ url c = "0" ∧ is_running c = true.
Proof.
  destruct (load_cameras_from_env_registers {[ "CAMERA_1_URL" := "" ]}
              (empty_world 1000 [Opens] [])) as (_ & _ & Hmine).
  cbv zeta in *. split.
  - destruct (Hmine 1%Z) as (u & _ & _ & H1); [set_solver |].
    assert (({[ "CAMERA_1_URL" := "" ]} : gmap string string)
              !! ("CAMERA_" +:+ pretty 1%Z +:+ "_URL") = Some "") as Hset
      by (by vm_compute).
    rewrite Hset in H1. exact H1.
  - destruct (Hmine 0%Z) as (u & _ & Hu & H0); [set_solver |].
    assert (({[ "CAMERA_1_URL" := "" ]} : gmap string string)
              !! ("CAMERA_" +:+ pretty 0%Z +:+ "_URL") = None) as Hunset
      by (by vm_compute).
    rewrite Hunset in H0. destruct H0 as (l & c & Hl & _ & Hc & Hurl & Hrun).
    exists l, c. repeat split; try done.
    rewrite Hurl. simpl. assert (default_cameras !! 0%Z = Some "0") as Hd by (by vm_compute).
    congruence.
Defined.

End CameraRuns.

(** * The rest of the safety-gear tracker *)

Section SafetyGearMore.
Import SafetyGear.

Lemma analyze_safety_gear_range r :
  _analyze_safety_gear r = [] ∨ _analyze_safety_gear r = ["helmet"]
  ∨ _analyze_safety_gear r = ["vest"]
  ∨ _analyze_safety_gear r = ["helmet"; "vest"].
Proof.
  unfold _analyze_safety_gear.
  destruct (N.eqb (roi_size r) 0); [by left |].
  destruct (negb (N.eqb (head_size r) 0) && Qltb (bright_ratio r) (1 # 10));
    destruct (negb (N.eqb (torso_size r) 0) && Qltb (vest_ratio r) (5 # 100));
    simpl; tauto.
Qed.

(** X8. Helmet and vest are the only gear the tracker ever reports: the
    missing gear of a record is ["helmet"], ["vest"] or both in that
    order. A person whose region of the frame is empty counts as
    compliant: no record names that worker and the window of the worker
    is closed. *)
Theorem only_helmet_and_vest_are_reported (st : t) (cam : Z) (s : sight) :
  Forall (λ r, missing_gear r = ["helmet"] ∨ missing_gear r = ["vest"]
               ∨ missing_gear r = ["helmet"; "vest"]) (detect st cam s).2
  ∧ (∀ i d, valid_boxes (sight_hits s) !! i = Some d →
       roi_size (det_roi d) = 0%N →
       gear_seen s i = Some []
       ∧ filter (λ r, worker_id r = worker_name cam i) (detect st cam s).2 = []
       ∧ (hog st = true → window (detect st cam s).1 cam (worker_name cam i) = None)).
Proof.
  split.
  - apply Forall_forall. intros r Hr.
    apply detect_reports in Hr as (j & g & _ & Hseen & Hg & _ & _ & -> & _).
    unfold gear_seen in Hseen.
    destruct (valid_boxes (sight_hits s) !! j) as [d|]; [| done].
    injection Hseen as <-. unfold det_gear in *.
    destruct (analyze_safety_gear_range (det_roi d)) as [H | H]; [done | tauto].
  - intros i d Hi Hroi.
    assert (det_gear d = []) as Hgear.
    { unfold det_gear, _analyze_safety_gear. by rewrite Hroi. }
    assert (gear_seen s i = Some []) as Hseen.
    { unfold gear_seen. rewrite Hi. simpl. by rewrite Hgear. }
    split; [done |]. split.
    + destruct (detect_emitted cam s st) as [-> _].
      destruct (hog st); [| done].
      destruct (emitted_from_filter cam s st _ 0 0 i d Hi) as [k' Hk'].
      simpl in Hk'. rewrite Hk'. unfold due. by rewrite Hgear.
    + intros Hh. by rewrite detect_window, Hh, Hseen.
Qed.

Lemma only_helmet_and_vest_are_reported_witness :
  let s := {| sight_hits :=
                [ {| det_box := (10, 10, 0, 80)%Z; det_weight := 9 # 10;
                     det_roi := {| roi_size := 0; head_size := 0;
                                   bright_ratio := 0; torso_size := 0;
                                   vest_ratio := 0 |} |} ];
              sight_time := 7;
              sight_wall := λ _, Datetime "20240101_000000" "2024-01-01T00:00:00";
              sight_imwrite := λ _, ImwriteTrue |} in
  let st := (detect init 1 (bareheaded 0)).1 in
  window st 1 (worker_name 1 0) = Some 0%Q
  ∧ (detect st 1 s).2 = []
  ∧ window (detect st 1 s).1 1 (worker_name 1 0) = None.
Proof.
  cbv zeta. split; [by vm_compute |]. split; [by vm_compute |].
  match goal with |- window (detect ?st _ ?s).1 _ _ = None =>
    destruct (only_helmet_and_vest_are_reported st 1 s) as [_ H];
    destruct (H 0 {| det_box := (10, 10, 0, 80)%Z; det_weight := 9 # 10;
                     det_roi := {| roi_size := 0; head_size := 0;
                                   bright_ratio := 0; torso_size := 0;
                                   vest_ratio := 0 |} |})
      as (_ & _ & Hw); [reflexivity | reflexivity |]
  end.
  apply Hw. reflexivity.
Defined.

(** X9. The tracker is shared by all cameras, and a pass for one camera
    stays within it: the windows of every other camera are as before, and
    every record returned is about this camera and one of its workers. *)
Theorem pass_stays_within_its_camera (st : t) (cam cam' : Z) (s : sight) :
  cam' ≠ cam →
  violation_time (detect st cam s).1 !! cam' = violation_time st !! cam'
  ∧ (∀ wid, window (detect st cam s).1 cam' wid = window st cam' wid)
  ∧ Forall (λ r, camera_id r = cam ∧ ∃ i, worker_id r = worker_name cam i)
      (detect st cam s).2.
Proof.
  intros Hne.
  destruct (detect_settings cam s st) as (_ & _ & Hother).
  split; [by apply Hother |]. split.
  - intros wid. unfold window, windows_of. by rewrite Hother.
  - apply Forall_forall. intros r Hr.
    apply detect_reports in Hr as (j & g & _ & _ & _ & Hid & Hcam & _).
    split; [done | by exists j].
Qed.

Lemma pass_stays_within_its_camera_witness :
  let st := (detect init 1 (bareheaded 0)).1 in
  window st 1 (worker_name 1 0) = Some 0%Q
  ∧ window (detect st 2 (equipped 1)).1 1 (worker_name 1 0) = Some 0%Q.
Proof.
  cbv zeta.
  assert (window (detect init 1 (bareheaded 0)).1 1 (worker_name 1 0) = Some 0%Q)
    as Hw by (by vm_compute).
  split; [exact Hw |].
  destruct (pass_stays_within_its_camera (detect init 1 (bareheaded 0)).1 2 1
              (equipped 1)) as (_ & Hsame & _); [done |].
  by rewrite Hsame.
Defined.

Lemma emitted_from_sorted cam s st l : ∀ i k,
  ∃ js, StronglySorted lt js ∧ Forall (le i) js ∧ length js ≤ length l
    ∧ map worker_id (emitted_from st cam s i l k) = map (worker_name cam) js.
Proof.
  induction l as [|d l IH]; intros i k.
  { exists []. repeat split; constructor. }
  cbn [emitted_from]. destruct (due st cam s i d) as [dur|].
  - destruct (IH (S i) (S k)) as (js & Hsorted & Hge & Hlen & Hmap).
    exists (i :: js). split; [| split; [| split]].
    + constructor; [done |]. eapply Forall_impl; [exact Hge |]. simpl. lia.
    + constructor; [lia |]. eapply Forall_impl; [exact Hge |]. simpl. lia.
    + simpl. lia.
    + simpl. by rewrite Hmap.
  - destruct (IH (S i) k) as (js & Hsorted & Hge & Hlen & Hmap).
    exists js. split; [done |]. split; [| split; [simpl; lia | done]].
    eapply Forall_impl; [exact Hge |]. simpl. lia.
Qed.

Lemma sorted_lt_NoDup (js : list nat) : StronglySorted lt js → NoDup js.
Proof.
  induction 1 as [|j js Hjs IH Hall]; constructor; [| done].
  intros Hin. rewrite Forall_forall in Hall. specialize (Hall j Hin). lia.
Qed.

(** X10. A pass returns at most one record for a worker, and the records
    come in the order of the workers' indices; so there are never more
    records than people above the confidence threshold. *)
Theorem one_record_per_worker (st : t) (cam : Z) (s : sight) :
  NoDup (map worker_id (detect st cam s).2)
  ∧ length (detect st cam s).2 ≤ length (valid_boxes (sight_hits s))
  ∧ ∃ js, StronglySorted lt js
      ∧ map worker_id (detect st cam s).2 = map (worker_name cam) js.
Proof.
  destruct (detect_emitted cam s st) as [-> _].
  destruct (hog st).
  - destruct (emitted_from_sorted cam s st (valid_boxes (sight_hits s)) 0 0)
      as (js & Hsorted & _ & Hlen & Hmap).
    split; [| split].
    + rewrite Hmap.
      assert (Inj (=) (=) (worker_name cam)) as Hinj
        by (intros i j; apply worker_name_inj).
      apply (NoDup_fmap_2 (worker_name cam)). by apply sorted_lt_NoDup.
    + apply (f_equal length) in Hmap. rewrite !length_map in Hmap. lia.
    + by exists js.
  - split; [constructor |]. split; [simpl; lia |].
    exists []. split; [constructor | done].
Qed.

Lemma run_out cam st s frames :
  (run st cam (s :: frames)).2
  = (detect st cam s).2 :: (run (detect st cam s).1 cam frames).2.
Proof.
  cbn [run]. destruct (detect st cam s) as [st1 vs]. cbn [fst snd].
  by destruct (run st1 cam frames).
Qed.

(** X11. The history of the tracker only grows: after any number of
    passes it is the history before followed by the records the passes
    returned, pass after pass, in the order they were returned. *)
Theorem history_is_what_was_returned (cam : Z) (frames : list sight) (st : t) :
  violation_history (run st cam frames).1
  = violation_history st ++ concat (run st cam frames).2.
Proof.
  revert st. induction frames as [|s frames IH]; intros st.
  { simpl. by rewrite app_nil_r. }
  rewrite run_cons, run_out, IH. simpl.
  destruct (detect_emitted cam s st) as [_ ->]. by rewrite app_assoc.
Qed.

End SafetyGearMore.

Section Rounding.
Import SafetyGear.

Lemma round_half_even_near q :
  (inject_Z (round_half_even q) - q <= 1 # 2)%Q
  ∧ (q - inject_Z (round_half_even q) <= 1 # 2)%Q.
Proof.
  unfold round_half_even.
  pose proof (Qfloor_le q) as Hlo. pose proof (Qlt_floor q) as Hhi.
  rewrite inject_Z_plus in Hhi. change (inject_Z 1) with 1%Q in Hhi.
  destruct (Qcompare_spec (q - inject_Z (Qfloor q)) (1 # 2)) as [Heq | Hlt | Hgt].
  - destruct (Z.even (Qfloor q)); rewrite ?inject_Z_plus;
      change (inject_Z 1) with 1%Q; split; lra.
  - split; lra.
  - rewrite inject_Z_plus. change (inject_Z 1) with 1%Q. split; lra.
Qed.

Lemma py_round1_near x :
  (py_round1 x - x <= 1 # 20)%Q ∧ (x - py_round1 x <= 1 # 20)%Q.
Proof.
  unfold py_round1.
  destruct (round_half_even_near (x * 10)) as [H1 H2].
  assert (round_half_even (x * 10) # 10
          == inject_Z (round_half_even (x * 10)) * (1 # 10))%Q as ->.
  { unfold Qeq. simpl. lia. }
  split; lra.
Qed.

(** X12. The duration a record carries is the time elapsed since the start
    of the worker's window rounded to a tenth of a second: it is within
    0.05 s of that time. *)
Theorem duration_is_elapsed_time_rounded (st : t) (cam : Z) (s : sight) :
  Forall (λ r, ∃ start,
            window (detect st cam s).1 cam (worker_id r) = Some start
            ∧ (duration r - (sight_time s - start) <= 1 # 20)%Q
            ∧ ((sight_time s - start) - duration r <= 1 # 20)%Q)
    (detect st cam s).2.
Proof.
  apply Forall_forall. intros r Hr.
  apply detect_reports in Hr as (j & g & Hh & Hseen & Hg & Hid & _ & _ & Hdur & _).
  exists (default (sight_time s) (window st cam (worker_name cam j))).
  split.
  - rewrite Hid, detect_window, Hh, Hseen. by destruct g.
  - rewrite Hdur. apply py_round1_near.
Qed.

End Rounding.

(** * The rest of the proximity tracker *)

Lemma for_enumerate_invariant {A St : Type} (P : St → Prop)
    (body : nat → A → St → St) (l : list A) :
  (∀ i x s, P s → P (body i x s)) →
  ∀ i s, P s → P (for_enumerate body i l s).
Proof.
  intros Hstep. induction l as [|x l IH]; intros i s Hs; [done |].
  simpl. apply IH, Hstep, Hs.
Qed.

Section ProximityMore.
Import Proximity.

Context (cam : Z) (s : sight).

Lemma alerts_of_worker_elem st i b ms : ∀ j0 k r,
  r ∈ alerts_of_worker st cam s i b j0 ms k →
  ∃ n m d2 k', ms !! n = Some m
    ∧ alert_due st cam s i b (j0 + n) m = Some d2
    ∧ r = alert_record cam s k' i (j0 + n) d2.
Proof.
  induction ms as [|m ms IH]; intros j0 k r Hr.
  { by apply elem_of_nil in Hr. }
  cbn [alerts_of_worker] in Hr.
  destruct (alert_due st cam s i b j0 m) as [d2|] eqn:Hdue.
  - apply elem_of_cons in Hr as [-> | Hr].
    + exists 0, m, d2, k. by rewrite Nat.add_0_r.
    + apply IH in Hr as (n & m' & d2' & k' & Hn & Hd & ->).
      exists (S n), m', d2', k'. by replace (j0 + S n) with (S j0 + n) by lia.
  - apply IH in Hr as (n & m' & d2' & k' & Hn & Hd & ->).
    exists (S n), m', d2', k'. by replace (j0 + S n) with (S j0 + n) by lia.
Qed.

Lemma alerts_from_elem st ws : ∀ i0 k r,
  r ∈ alerts_from st cam s i0 ws k →
  ∃ a b n m d2 k', ws !! a = Some b ∧ sight_machinery s !! n = Some m
    ∧ alert_due st cam s (i0 + a) b n m = Some d2
    ∧ r = alert_record cam s k' (i0 + a) n d2.
Proof.
  induction ws as [|b ws IH]; intros i0 k r Hr.
  { by apply elem_of_nil in Hr. }
  cbn [alerts_from] in Hr. cbv zeta in Hr.
  apply elem_of_app in Hr as [Hr | Hr].
  - apply alerts_of_worker_elem in Hr as (n & m & d2 & k' & Hn & Hd & ->).
    exists 0, b, n, m, d2, k'. by rewrite Nat.add_0_r.
  - apply IH in Hr as (a & b' & n & m & d2 & k' & Ha & Hn & Hd & ->).
    exists (S a), b', n, m, d2, k'.
    by replace (i0 + S a) with (S i0 + a) by lia.
Qed.

Lemma no_machinery_no_change ws : ∀ i acc,
  sight_machinery s = [] →
  for_enumerate (check_worker cam s) i ws acc = acc.
Proof.
  induction ws as [|b ws IH]; intros i acc Hnone; [done |].
  cbn [for_enumerate]. unfold check_worker at 2. rewrite Hnone. simpl.
  by apply IH.
Qed.

Lemma int32_exact (z : Z) : (- 2 ^ 31 <= z < 2 ^ 31)%Z → int32 z = z.
Proof. intros Hz. unfold int32. rewrite Z.mod_small; lia. Qed.

Lemma int32_range (z : Z) : (- 2 ^ 31 <= int32 z < 2 ^ 31)%Z.
Proof.
  unfold int32. pose proof (Z.mod_pos_bound (z + 2 ^ 31) (2 ^ 32)). lia.
Qed.

(** Wrapping the centre of the worker first changes nothing. *)
Lemma int32_sub_wrapped (a b : Z) : int32 (int32 a - b) = int32 (a - b).
Proof.
  unfold int32. f_equal.
  replace ((a + 2 ^ 31) mod 2 ^ 32 - 2 ^ 31 - b + 2 ^ 31)%Z
    with ((a + 2 ^ 31) mod 2 ^ 32 + - b)%Z by lia.
  replace (a - b + 2 ^ 31)%Z with ((a + 2 ^ 31) + - b)%Z by lia.
  by rewrite Zplus_mod_idemp_l.
Qed.

Lemma dist_sq_wrapped_centre (a b : Z) (q : Z * Z) :
  dist_sq (int32 a, int32 b) q = dist_sq (a, b) q.
Proof. unfold dist_sq. simpl. by rewrite !int32_sub_wrapped. Qed.

Lemma dist_sq_exact (p q : Z * Z) :
  (- 2 ^ 15 < p.1 - q.1 < 2 ^ 15)%Z → (- 2 ^ 15 < p.2 - q.2 < 2 ^ 15)%Z →
  dist_sq p q = ((p.1 - q.1) ^ 2 + (p.2 - q.2) ^ 2)%Z.
Proof.
  intros Hx Hy. unfold dist_sq. cbv zeta.
  rewrite (int32_exact (p.1 - q.1)), (int32_exact (p.2 - q.2)) by lia.
  assert (0 <= (p.1 - q.1) ^ 2 < 2 ^ 30)%Z as Hx2 by nia.
  assert (0 <= (p.2 - q.2) ^ 2 < 2 ^ 30)%Z as Hy2 by nia.
  rewrite (int32_exact ((p.1 - q.1) ^ 2)), (int32_exact ((p.2 - q.2) ^ 2)) by lia.
  apply int32_exact. lia.
Qed.

(** X13. An alert is only ever returned for a worker and a machine of the
    frame whose centres the code finds closer than the threshold, the
    threshold being positive, and only when the cooldown of the pair has run
    out. The distance is the one the code computes, in int32: its square is
    not negative and below the square of the threshold, and it is the sum
    of the squares of the two coordinate differences when both are below
    2^15 in absolute value; beyond that the squares wrap around. A frame
    without a person above the confidence threshold, or without machinery,
    gives no alert and leaves the cooldown entries alone. *)
Theorem alerts_are_for_close_pairs (st : t) :
  Forall (λ r, ∃ i j b m,
            valid_boxes (sight_hits s) !! i = Some b
            ∧ sight_machinery s !! j = Some m
            ∧ worker_id r = worker_name cam i
            ∧ machine_id r = machine_name cam j
            ∧ camera_id r = cam
            ∧ distance_sq r = dist_sq (center b) (center m)
            ∧ (0 <= distance_sq r)%Z
            ∧ (0 < proximity_threshold st)%Q
            ∧ (inject_Z (distance_sq r)
               < proximity_threshold st * proximity_threshold st)%Q
            ∧ (alert_cooldown st
               <= sight_time s - last_alert st cam (pair_key cam i j))%Q
            ∧ ((- 2 ^ 15 < (center b).1 - (center m).1 < 2 ^ 15)%Z →
               (- 2 ^ 15 < (center b).2 - (center m).2 < 2 ^ 15)%Z →
               distance_sq r
               = (((center b).1 - (center m).1) ^ 2
                  + ((center b).2 - (center m).2) ^ 2)%Z))
    (detect st cam s).2
  ∧ (valid_boxes (sight_hits s) = [] ∨ sight_machinery s = [] →
       (detect st cam s).2 = []
       ∧ alert_history (detect st cam s).1 = alert_history st).
Proof.
  split.
  - apply Forall_forall. intros r Hr.
    destruct (alerts_of_pass cam s st) as [Hout _]. rewrite Hout in Hr.
    apply alerts_from_elem in Hr as (i & b & j & m & d2 & k' & Hi & Hj & Hdue & ->).
    exists i, j, b, m. cbn [worker_id machine_id camera_id distance_sq alert_record].
    unfold alert_due in Hdue.
    destruct (closer_than _ _) eqn:Hnear; [| done]. simpl in Hdue.
    destruct (Qle_bool _ _) eqn:Hcool; [| done].
    injection Hdue as <-.
    apply andb_true_iff in Hnear as [Hsign%Z.leb_le Hnear].
    apply andb_true_iff in Hnear as [Hpos%Qltb_lt Hlt%Qltb_lt].
    apply Qle_bool_iff in Hcool.
    repeat (split; [done |]). by apply dist_sq_exact.
  - intros [Hnone | Hnone]; unfold detect.
    + by rewrite Hnone.
    + by rewrite no_machinery_no_change.
Qed.

Lemma check_pair_entry_any i b j m st al key :
  cooldowns_of (check_pair cam s i (center b) j m (st, al)).1 cam !! key
  = cooldowns_of st cam !! key
  ∨ cooldowns_of (check_pair cam s i (center b) j m (st, al)).1 cam !! key
    = Some (sight_time s).
Proof.
  destruct (decide (key = pair_key cam i j)) as [-> | Hne].
  - rewrite check_pair_entry_same. destruct (alert_due st cam s i b j m); auto.
  - left. by apply check_pair_entry_other.
Qed.

Lemma check_pair_elsewhere i c j m st al :
  machinery_positions (check_pair cam s i c j m (st, al)).1 = machinery_positions st
  ∧ ∀ cam', cam' ≠ cam →
      alert_history (check_pair cam s i c j m (st, al)).1 !! cam'
      = alert_history st !! cam'.
Proof.
  unfold check_pair.
  destruct (closer_than _ _); [| done]. simpl.
  destruct (Qle_bool _ _); simpl; (split; [done |]);
    intros cam' Hne; by rewrite ?lookup_insert_ne.
Qed.

(** X14. Cooldown entries are never removed: after a pass every entry of the
    camera is either what it was or the time of the pass, so an entry that
    exists goes on existing. The entries of the other cameras are not
    touched. *)
Theorem cooldown_entries_are_kept (st : t) (cam' : Z) (key : string) :
  (cooldowns_of (detect st cam s).1 cam !! key = cooldowns_of st cam !! key
   ∨ cooldowns_of (detect st cam s).1 cam !! key = Some (sight_time s))
  ∧ (is_Some (cooldowns_of st cam !! key) →
     is_Some (cooldowns_of (detect st cam s).1 cam !! key))
  ∧ (cam' ≠ cam →
     alert_history (detect st cam s).1 !! cam' = alert_history st !! cam').
Proof.
  assert (cooldowns_of (detect st cam s).1 cam !! key = cooldowns_of st cam !! key
          ∨ cooldowns_of (detect st cam s).1 cam !! key = Some (sight_time s))
    as Hkept.
  { unfold detect.
    apply (for_enumerate_invariant
             (λ acc : t * list alert_data,
                cooldowns_of acc.1 cam !! key = cooldowns_of st cam !! key
                ∨ cooldowns_of acc.1 cam !! key = Some (sight_time s)));
      [| by left].
    intros i b acc Hacc. unfold check_worker.
    apply (for_enumerate_invariant
             (λ acc : t * list alert_data,
                cooldowns_of acc.1 cam !! key = cooldowns_of st cam !! key
                ∨ cooldowns_of acc.1 cam !! key = Some (sight_time s)));
      [| done].
    intros j m [st1 al1] Hst1. simpl in Hst1.
    destruct (check_pair_entry_any i b j m st1 al1 key) as [-> | ->]; auto. }
  split; [exact Hkept |]. split.
  - intros Hsome. destruct Hkept as [-> | ->]; [done | by eexists].
  - intros Hne. unfold detect.
    apply (for_enumerate_invariant
             (λ acc : t * list alert_data,
                alert_history acc.1 !! cam' = alert_history st !! cam'));
      [| done].
    intros i b acc Hacc. unfold check_worker.
    apply (for_enumerate_invariant
             (λ acc : t * list alert_data,
                alert_history acc.1 !! cam' = alert_history st !! cam'));
      [| done].
    intros j m [st1 al1] Hst1. simpl in Hst1.
    destruct (check_pair_elsewhere i (center b) j m st1 al1) as [_ ->]; done.
Qed.

End ProximityMore.

Section ProximityMoreWitnesses.
Import Proximity.

Lemma cooldown_entries_are_kept_witness :
  let st := (detect init 1 (close_pair 1000)).1 in
  let key := pair_key 1 0 0 in
  cooldowns_of st 1 !! key = Some 1000%Q
  ∧ is_Some (cooldowns_of (detect st 1 (close_pair 1003)).1 1 !! key)
  ∧ alert_history (detect st 1 (close_pair 1003)).1 !! 2%Z = alert_history st !! 2%Z.
Proof.
  cbv zeta.
  assert (cooldowns_of (detect init 1 (close_pair 1000)).1 1 !! pair_key 1 0 0
          = Some 1000%Q) as Hentry by (by vm_compute).
  destruct (cooldown_entries_are_kept 1 (close_pair 1003)
              (detect init 1 (close_pair 1000)).1 2 (pair_key 1 0 0))
    as (_ & Hsome & Hother).
  split; [exact Hentry |]. split.
  - apply Hsome. rewrite Hentry. by eexists.
  - by apply Hother.
Defined.

End ProximityMoreWitnesses.

Section ProximityMachinery.
Import Proximity.

Lemma alerts_are_for_close_pairs_witness :
  (detect init 1 (close_pair 1000)).2 ≠ []
  ∧ map distance_sq
      (detect init 1
         (Sight [((0, 0, 40, 80)%Z, (9 # 10)%Q)]
            [Contour 7500 (65506, 0, 100, 80%positive)%Z] 1000
            (sight_wall (close_pair 0)) (λ _, ImwriteTrue))).2 = [0%Z]
  ∧ let s := Sight [] (sight_contours (close_pair 0)) 1000
               (sight_wall (close_pair 0)) (λ _, ImwriteTrue) in
    (detect init 1 s).2 = []
    ∧ alert_history (detect init 1 s).1 = alert_history init.
Proof.
  split; [by vm_compute |]. split; [by vm_compute |]. cbv zeta.
  apply (alerts_are_for_close_pairs 1
           (Sight [] (sight_contours (close_pair 0)) 1000
              (sight_wall (close_pair 0)) (λ _, ImwriteTrue)) init).
  by left.
Defined.

Lemma aspect_ratio_bounds (w : Z) (h : positive) :
  Qltb (1 # 2) (inject_Z w / inject_Z (Zpos h)) = true →
  Qltb (inject_Z w / inject_Z (Zpos h)) 3 = true →
  (Zpos h < 2 * w ∧ w < 3 * Zpos h)%Z.
Proof.
  intros Hlo%Qltb_lt Hhi%Qltb_lt.
  unfold Qlt, Qdiv, Qmult, Qinv, inject_Z in *. simpl in *. lia.
Qed.

Lemma detect_machinery_elem (cs : list contour) (b : box) :
  b ∈ _detect_machinery cs →
  ∃ c x y w h, c ∈ cs ∧ contour_rect c = (x, y, w, h)
    ∧ b = (x, y, w, Zpos h)
    ∧ (2000 < contour_area c)%Q
    ∧ (Zpos h < 2 * w ∧ w < 3 * Zpos h)%Z.
Proof.
  unfold _detect_machinery. intros (c & -> & Hc)%list_elem_of_fmap.
  apply list_elem_of_filter in Hc as [Hlike Hc].
  unfold machinery_like in Hlike.
  destruct (contour_rect c) as [[[x y] w] h] eqn:Hrect.
  apply andb_true_iff in Hlike as [Harea%Qltb_lt Hratio].
  apply andb_true_iff in Hratio as [Hlo Hhi].
  exists c, x, y, w, h. repeat split; try done;
    by destruct (aspect_ratio_bounds w h Hlo Hhi).
Qed.

(** X15. The machinery of a frame is made of the bounding rectangles of
    contours whose area is above 2000 and that are less than three times as
    wide as tall and less than twice as tall as wide; there is at most one
    per contour. A pass stores that list for its camera, whatever was stored
    before, and leaves the lists of the other cameras alone. *)
Theorem machinery_is_filtered_and_stored (st : t) (cam cam' : Z) (s : sight) :
  Forall (λ b, ∃ c x y w h,
            c ∈ sight_contours s ∧ contour_rect c = (x, y, w, h)
            ∧ b = (x, y, w, Zpos h)
            ∧ (2000 < contour_area c)%Q
            ∧ (Zpos h < 2 * w ∧ w < 3 * Zpos h)%Z)
    (sight_machinery s)
  ∧ length (sight_machinery s) ≤ length (sight_contours s)
  ∧ machinery_positions (detect st cam s).1 !! cam = Some (sight_machinery s)
  ∧ (cam' ≠ cam →
     machinery_positions (detect st cam s).1 !! cam'
     = machinery_positions st !! cam').
Proof.
  assert (machinery_positions (detect st cam s).1
          = <[cam := sight_machinery s]> (machinery_positions st)) as Hstored.
  { unfold detect.
    apply (for_enumerate_invariant
             (λ acc : t * list alert_data,
                machinery_positions acc.1
                = <[cam := sight_machinery s]> (machinery_positions st)));
      [| done].
    intros i b acc Hacc. unfold check_worker.
    apply (for_enumerate_invariant
             (λ acc : t * list alert_data,
                machinery_positions acc.1
                = <[cam := sight_machinery s]> (machinery_positions st)));
      [| done].
    intros j m [st1 al1] Hst1. simpl in Hst1.
    by destruct (check_pair_elsewhere cam s i (center b) j m st1 al1) as [-> _]. }
  split; [| split; [| split]].
  - apply Forall_forall. intros b Hb. by apply detect_machinery_elem.
  - unfold sight_machinery, _detect_machinery.
    rewrite length_fmap. apply length_filter.
  - by rewrite Hstored, lookup_insert_eq.
  - intros Hne. by rewrite Hstored, lookup_insert_ne.
Qed.

Lemma machinery_is_filtered_and_stored_witness :
  let s := two_by_two 1000 (sight_wall (close_pair 0)) (λ _, false) in
  let st := (detect init 2 (close_pair 999)).1 in
  length (sight_machinery s) = 2
  ∧ machinery_positions (detect st 1 s).1 !! 2%Z = Some (sight_machinery (close_pair 999)).
Proof.
  cbv zeta. split; [by vm_compute |].
  destruct (machinery_is_filtered_and_stored (detect init 2 (close_pair 999)).1 1 2
              (two_by_two 1000 (sight_wall (close_pair 0)) (λ _, false)))
    as (_ & _ & _ & Hother).
  rewrite Hother; [by vm_compute | done].
Defined.

(** X16. The name of a screenshot is made of the kind of violation, the
    camera, the worker and the second of the capture, and not of the
    machine: when the wall clock stays within one second during a pass and
    no [cv2.imwrite] raises, all the alerts of the pass that concern one
    worker carry the same screenshot reference, whichever machines they are
    about. *)
Theorem alerts_of_a_worker_share_a_screenshot (st : t) (cam : Z) (s : sight)
    (stamp : string) (r1 r2 : alert_data) :
  (∀ k, sight_imwrite_raises s k = false) →
  (∀ k, strftime_compact (sight_wall s k) = stamp) →
  r1 ∈ (detect st cam s).2 →
  r2 ∈ (detect st cam s).2 →
  worker_id r1 = worker_id r2 →
  screenshot r1 = screenshot r2
  ∧ screenshot r1
    = Some ("/static/violations/proximity/proximity_" +:+ pretty cam +:+ "_"
            +:+ worker_id r1 +:+ "_" +:+ stamp +:+ ".jpg").
Proof.
  intros Hwrite Hstamp Hr1 Hr2 Hsame.
  assert (∀ r, r ∈ (detect st cam s).2 →
            screenshot r
            = Some ("/static/violations/proximity/proximity_" +:+ pretty cam
                    +:+ "_" +:+ worker_id r +:+ "_" +:+ stamp +:+ ".jpg"))
    as Hshot.
  { intros r Hr. destruct (alerts_of_pass cam s st) as [Hout _].
    rewrite Hout in Hr.
    apply alerts_from_elem in Hr as (i & b & j & m & d2 & k' & _ & _ & _ & ->).
    simpl. unfold _capture_violation_screenshot, screenshot_filename.
    rewrite Hstamp. specialize (Hwrite k').
    unfold sight_imwrite_raises, raised in Hwrite.
    by destruct (sight_imwrite s k'). }
  split; [| by apply Hshot].
  rewrite (Hshot r1 Hr1), (Hshot r2 Hr2). by rewrite Hsame.
Qed.

Lemma alerts_of_a_worker_share_a_screenshot_witness :
  let s := two_by_two 1000 (sight_wall (close_pair 0)) (λ _, false) in
  ∃ r1 r2, (detect init 1 s).2 !! 0 = Some r1
    ∧ (detect init 1 s).2 !! 1 = Some r2
    ∧ machine_id r1 ≠ machine_id r2
    ∧ screenshot r1 = screenshot r2.
Proof.
  cbv zeta.
  destruct ((detect init 1 (two_by_two 1000 (sight_wall (close_pair 0)) (λ _, false))).2 !! 0)
    as [r1|] eqn:H1; [| by vm_compute in H1].
  destruct ((detect init 1 (two_by_two 1000 (sight_wall (close_pair 0)) (λ _, false))).2 !! 1)
    as [r2|] eqn:H2; [| by vm_compute in H2].
  exists r1, r2. split; [done |]. split; [done |]. split.
  - vm_compute in H1, H2. injection H1 as <-. injection H2 as <-. by vm_compute.
  - apply (alerts_of_a_worker_share_a_screenshot init 1
             (two_by_two 1000 (sight_wall (close_pair 0)) (λ _, false))
             "20240101_000000" r1 r2).
    + done.
    + done.
    + by eapply list_elem_of_lookup_2.
    + by eapply list_elem_of_lookup_2.
    + vm_compute in H1, H2. injection H1 as <-. injection H2 as <-. done.
Defined.

End ProximityMachinery.

(** * From the trackers to the violation store *)

Section Stored.

(** X17. What the frame loop stores for a violation that the safety-gear
    tracker returns: the tracker's own clock reading, camera, worker,
    rounded duration and screenshot reference (nothing when [cv2.imwrite]
    raised), the kind ['unknown'], empty details and analysis and the status
    ['ongoing']. The missing gear is not stored. *)
Theorem stored_safety_violation (st : SafetyGear.t) (cam : Z)
    (s : SafetyGear.sight) (now : string) :
  Forall (λ r,
            Database.add_violation_params now (Database.violation_dict r)
            = {| Database.timestamp := Database.VStr (SafetyGear.timestamp r);
                 Database.camera_id := Database.VInt cam;
                 Database.violation_type := Database.VStr "unknown";
                 Database.worker_id := Database.VStr (SafetyGear.worker_id r);
                 Database.details := Database.VStr "";
                 Database.duration := Database.VFloat (SafetyGear.duration r);
                 Database.screenshot_path :=
                   Database.path_value (SafetyGear.screenshot r);
                 Database.status := Database.VStr "ongoing";
                 Database.analysis := Database.VStr "" |})
    (SafetyGear.detect st cam s).2.
Proof.
  apply Forall_forall. intros r Hr.
  apply detect_reports in Hr as (_ & _ & _ & _ & _ & _ & <- & _).
  by destruct r.
Qed.

(** X18. What the frame loop stores for an alert that the proximity tracker
    returns: the tracker's own clock reading, camera, worker and screenshot
    reference, the kind ['unknown'], the duration 0, empty details and
    analysis and the status ['ongoing']. Neither the machine nor the
    distance is stored. *)
Theorem stored_proximity_alert (st : Proximity.t) (cam : Z)
    (s : Proximity.sight) (now : string) :
  Forall (λ r,
            Database.add_violation_params now (Database.alert_dict r)
            = {| Database.timestamp := Database.VStr (Proximity.timestamp r);
                 Database.camera_id := Database.VInt cam;
                 Database.violation_type := Database.VStr "unknown";
                 Database.worker_id := Database.VStr (Proximity.worker_id r);
                 Database.details := Database.VStr "";
                 Database.duration := Database.VInt 0;
                 Database.screenshot_path :=
                   Database.path_value (Proximity.screenshot r);
                 Database.status := Database.VStr "ongoing";
                 Database.analysis := Database.VStr "" |})
    (Proximity.detect st cam s).2.
Proof.
  apply Forall_forall. intros r Hr.
  destruct (alerts_of_pass cam s st) as [Hout _]. rewrite Hout in Hr.
  apply alerts_from_elem in Hr as (i & b & j & m & d2 & k' & _ & _ & _ & ->).
  done.
Qed.

End Stored.

(** * Runs of the trackers *)

Section TrackerRuns.

(** X19. The history of the proximity tracker is an append-only log: after
    any run of passes over a camera it is the history before the run,
    followed by the alerts that the passes returned, in their order. *)
Theorem alert_history_log_is_what_was_returned (cam : Z)
    (frames : list Proximity.sight) (st : Proximity.t) :
  Proximity.violation_history (Proximity.run st cam frames).1
  = Proximity.violation_history st ++ concat (Proximity.run st cam frames).2.
Proof.
  revert st. induction frames as [|s frames IH]; intros st.
  { simpl. by rewrite app_nil_r. }
  cbn [Proximity.run].
  destruct (alerts_of_pass cam s st) as [_ Hlog].
  destruct (Proximity.detect st cam s) as [st1 vs]. cbn [fst snd] in Hlog.
  specialize (IH st1).
  destruct (Proximity.run st1 cam frames) as [st2 out]. cbn [fst snd] in *.
  cbn [concat]. by rewrite IH, Hlog, app_assoc.
Qed.

(** X20. A safety-gear tracker whose people detector failed to load does
    nothing: whatever the frames, every pass returns no violation and the
    tracker stays as it was. *)
Theorem tracker_without_model_is_idle (st : SafetyGear.t) (cam : Z)
    (frames : list SafetyGear.sight) :
  SafetyGear.hog st = false →
  SafetyGear.run st cam frames = (st, replicate (length frames) []).
Proof.
  intros Hnone. induction frames as [|s frames IH]; [done |].
  cbn [SafetyGear.run]. unfold SafetyGear.detect. rewrite Hnone, IH. done.
Qed.

Lemma tracker_without_model_is_idle_witness :
  let st := SafetyGear.Detector false ∅ 3 [] in
  SafetyGear.run st 1 [SafetyGear.bareheaded 100; SafetyGear.bareheaded 104]
  = (st, [[]; []])
  ∧ (SafetyGear.run SafetyGear.init 1
       [SafetyGear.bareheaded 100; SafetyGear.bareheaded 104]).2 ≠ [[]; []].
Proof.
  cbv zeta. split.
  - by apply (tracker_without_model_is_idle (SafetyGear.Detector false ∅ 3 []) 1
                [SafetyGear.bareheaded 100; SafetyGear.bareheaded 104]).
  - by vm_compute.
Defined.

End TrackerRuns.
